(** * CivicaidAdmin: the report aggregator and the status mutator

    A shallow embedding of the data-shaping logic of the admin dashboard
    ([src/AdminDashboard.tsx] and its earlier plain-HTML variant):
    the client-side join of reports, vote interactions and profiles done by
    [fetchReports], the status filter [filteredReports], and the local
    mirror of a status change done by [updateReportStatus].

    The remote data store, the clock and the browser ([alert],
    [console.error]) are outside the program: their answers are taken as
    inputs, and what the program sends to them is recorded in the world. *)

From Stdlib Require Import Ascii SpecFloat.
From stdpp Require Import gmap strings list.

Open Scope string_scope.
Open Scope list_scope.
Open Scope nat_scope.

(** ** Data model *)

(** The type declarations ([./types/database]) are the ones that follow the
    component in [src/AdminDashboard.tsx], lines 449-489.  What the profiles
    variant uses beyond them (the [is_anonymous] flag, [Profile] and
    [reporter_name]) belongs to a later revision of the declarations that
    is not among the sources; it is marked where it is modelled. *)

(** [number]: an IEEE 754 double.  The numbers of a report are only
    copied. *)
Definition number : Type := spec_float.

(** [ReportStatus], line 449. *)
Inductive ReportStatus : Type :=
  | reported
  | in_progress
  | resolved.

#[global] Instance ReportStatus_eq_dec : EqDecision ReportStatus.
Proof. solve_decision. Defined.

(** [ReportCategory], lines 451-457. *)
Inductive ReportCategory : Type :=
  | pothole
  | garbage
  | streetlight
  | drainage
  | water
  | noise.

#[global] Instance ReportCategory_eq_dec : EqDecision ReportCategory.
Proof. solve_decision. Defined.

(** [InteractionType], line 459. *)
Inductive InteractionType : Type :=
  | upvote
  | downvote.

#[global] Instance InteractionType_eq_dec : EqDecision InteractionType.
Proof. solve_decision. Defined.

(** [interface Report], lines 461-475, field by field.
    Modelled from the spec: the last field, [is_anonymous] (the anonymity
    flag of a report), which line 106 reads and the declarations at hand do
    not have yet. *)
Module Report.
Record t : Type := mk {
  id : string;
  user_id : string;
  title : string;
  description : option string;
  category : ReportCategory;
  status : ReportStatus;
  latitude : option number;
  longitude : option number;
  location_name : option string;
  photo_urls : option (list string);
  eta_days : option number;
  created_at : string;
  updated_at : string;
  is_anonymous : bool
}.
End Report.

(** [interface ReportInteraction], lines 477-484. *)
Module Interaction.
Record t : Type := mk {
  id : string;
  report_id : string;
  user_id : string;
  interaction_type : InteractionType;
  created_at : string;
  updated_at : string
}.
End Interaction.

(** Modelled from the spec: the [Profile] row of [./types/database]; the
    full name may be null, the email is a string. *)
Module Profile.
Record t : Type := mk {
  id : string;
  full_name : option string;
  email : string
}.
End Profile.

(** [interface ReportWithVotes extends Report], lines 486-489: the fields
    of [Report] and the two counters.
    Modelled from the spec: the last field, [reporter_name] (the resolved
    reporter display name, optional), which line 115 writes and line 334
    reads. *)
Module ReportWithVotes.
Record t : Type := mk {
  id : string;
  user_id : string;
  title : string;
  description : option string;
  category : ReportCategory;
  status : ReportStatus;
  latitude : option number;
  longitude : option number;
  location_name : option string;
  photo_urls : option (list string);
  eta_days : option number;
  created_at : string;
  updated_at : string;
  is_anonymous : bool;
  upvotes : nat;
  downvotes : nat;
  reporter_name : option string
}.

(** The object literal [{ ...report, upvotes, downvotes, reporter_name }];
    the plain variant leaves [reporter_name] out ([None]). *)
Definition spread (report : Report.t) (up down : nat)
    (name : option string) : t :=
  {| id := Report.id report;
     user_id := Report.user_id report;
     title := Report.title report;
     description := Report.description report;
     category := Report.category report;
     status := Report.status report;
     latitude := Report.latitude report;
     longitude := Report.longitude report;
     location_name := Report.location_name report;
     photo_urls := Report.photo_urls report;
     eta_days := Report.eta_days report;
     created_at := Report.created_at report;
     updated_at := Report.updated_at report;
     is_anonymous := Report.is_anonymous report;
     upvotes := up;
     downvotes := down;
     reporter_name := name |}.

(** The object literal [{ ...report, status: newStatus, updated_at: now }]. *)
Definition with_status (report : t) (newStatus : ReportStatus)
    (now : string) : t :=
  {| id := id report;
     user_id := user_id report;
     title := title report;
     description := description report;
     category := category report;
     status := newStatus;
     latitude := latitude report;
     longitude := longitude report;
     location_name := location_name report;
     photo_urls := photo_urls report;
     eta_days := eta_days report;
     created_at := created_at report;
     updated_at := now;
     is_anonymous := is_anonymous report;
     upvotes := upvotes report;
     downvotes := downvotes report;
     reporter_name := reporter_name report |}.

(** The [Report] part of a row: what is left when the added fields are
    forgotten. *)
Definition to_report (row : t) : Report.t :=
  {| Report.id := id row;
     Report.user_id := user_id row;
     Report.title := title row;
     Report.description := description row;
     Report.category := category row;
     Report.status := status row;
     Report.latitude := latitude row;
     Report.longitude := longitude row;
     Report.location_name := location_name row;
     Report.photo_urls := photo_urls row;
     Report.eta_days := eta_days row;
     Report.created_at := created_at row;
     Report.updated_at := updated_at row;
     Report.is_anonymous := is_anonymous row |}.
End ReportWithVotes.

(** ** JavaScript values the aggregator relies on *)

(** A [string | null | undefined] operand: [None] is null or undefined. *)
Definition truthy (v : option string) : bool :=
  match v with
  | Some s => negb (String.eqb s "")
  | None => false
  end.

(** [a || b] on such operands. *)
Definition js_or (a b : option string) : option string :=
  if truthy a then a else b.

(** [a || "literal"]: the right operand is a non-empty string literal, so
    the result is a string. *)
Definition js_or_lit (a : option string) (lit : string) : string :=
  match a with
  | Some s => if String.eqb s "" then lit else s
  | None => lit
  end.

(** [data || []] and [data?.filter(..) || []]: an array is truthy even when
    empty, so only a null [data] takes the right operand. *)
Definition or_empty {A : Type} (data : option (list A)) : list A :=
  match data with
  | Some l => l
  | None => []
  end.

(** ** The aggregation step of [fetchReports] *)

(** [interactionsData?.filter(i => i.report_id === report.id) || []] *)
Definition reportInteractions (interactionsData : option (list Interaction.t))
    (report : Report.t) : list Interaction.t :=
  or_empty
    (filter (λ interaction,
               Interaction.report_id interaction = Report.id report)
       <$> interactionsData).

(** [reportInteractions.filter(i => i.interaction_type === ty).length] *)
Definition tally (ty : InteractionType) (ris : list Interaction.t) : nat :=
  length (filter (λ interaction,
                    Interaction.interaction_type interaction = ty) ris).

(** [profilesData?.forEach(profile => profilesMap.set(profile.id, profile))]
    on a fresh [Map]: a later profile with the same id replaces an earlier
    one. *)
Definition profilesMap (profilesData : option (list Profile.t))
    : gmap string Profile.t :=
  foldl (λ m profile, <[Profile.id profile := profile]> m) ∅
        (or_empty profilesData).

(** The reporter name of one report:
    [let reporter_name = "Anonymous";
     if (!report.is_anonymous) {
       const profile = profilesMap.get(report.user_id);
       reporter_name = profile?.full_name || profile?.email || "Unknown"; }] *)
Definition resolve_reporter_name (pm : gmap string Profile.t)
    (report : Report.t) : string :=
  if Report.is_anonymous report then "Anonymous"
  else
    let profile := pm !! Report.user_id report in
    js_or_lit (js_or (profile ≫= Profile.full_name)
                     (Profile.email <$> profile))
              "Unknown".

Module Mui.
(** [src/AdminDashboard.tsx], lines 82-118: the profiles variant. *)
Definition aggregate (reportsData : option (list Report.t))
    (interactionsData : option (list Interaction.t))
    (profilesData : option (list Profile.t)) : list ReportWithVotes.t :=
  let pm := profilesMap profilesData in
  (λ report,
     let ris := reportInteractions interactionsData report in
     ReportWithVotes.spread report (tally upvote ris) (tally downvote ris)
       (Some (resolve_reporter_name pm report)))
  <$> or_empty reportsData.
End Mui.

Module Plain.
(** The plain variant, lines 36-57: no profiles, no reporter name. *)
Definition aggregate (reportsData : option (list Report.t))
    (interactionsData : option (list Interaction.t))
    : list ReportWithVotes.t :=
  (λ report,
     let ris := reportInteractions interactionsData report in
     ReportWithVotes.spread report (tally upvote ris) (tally downvote ris)
       None)
  <$> or_empty reportsData.
End Plain.

(** ** The status filter *)

(** [ReportStatus | "all"], the value of the filter select. *)
Inductive StatusFilter : Type :=
  | all
  | only (s : ReportStatus).

(** [statusFilter === "all" ? reports
       : reports.filter(report => report.status === statusFilter)] *)
Definition filteredReports (statusFilter : StatusFilter)
    (reports : list ReportWithVotes.t) : list ReportWithVotes.t :=
  match statusFilter with
  | all => reports
  | only s => filter (λ report, ReportWithVotes.status report = s) reports
  end.

(** The action buttons of one table row (lines 392-431; the plain variant
    has the same three guards): a button per status, rendered when
    [report.status !== that status]. *)
Definition action_buttons (report : ReportWithVotes.t) : list ReportStatus :=
  (if decide (ReportWithVotes.status report ≠ reported)
   then [reported] else [])
  ++ (if decide (ReportWithVotes.status report ≠ in_progress)
      then [in_progress] else [])
  ++ (if decide (ReportWithVotes.status report ≠ resolved)
      then [resolved] else []).

(** ** The world around the component *)

(** A thrown or returned error value: whether it is [instanceof Error], and
    its message. *)
Record JsError : Type := mkError {
  instanceof_Error : bool;
  message : string
}.

(** What the program sends to the remote store. *)
Inductive Request : Type :=
  | SelectReports
  | SelectInteractions
  | SelectProfiles
  | UpdateReport (reportId : string) (newStatus : ReportStatus)
                 (updated_at : string).

(** What an awaited select gives back: the promise rejects, or it resolves
    to [{ data, error }]. *)
Inductive Reply (A : Type) : Type :=
  | Rejected (e : JsError)
  | Resolved (data : option (list A)) (error : option JsError).
Arguments Rejected {A} e.
Arguments Resolved {A} data error.

(** What the awaited update gives back: only [error] is read. *)
Inductive UpdateReply : Type :=
  | UpdateRejected (e : JsError)
  | UpdateResolved (error : option JsError).

(** The four [useState] cells of [AdminDashboard]. *)
Record Dashboard : Type := mkDashboard {
  reports : list ReportWithVotes.t;
  loading : bool;
  error : option string;
  statusFilter : StatusFilter
}.

(** The component state, what the browser was asked to show, what was sent
    to the store, and the clock: [time k] is what the [k]-th evaluation of
    [new Date().toISOString()] returns, [reads] counts the evaluations so
    far.  [strict_reruns] is the number of times React runs an updater
    function before the run whose result it keeps: 0 in a production
    build, 1 in a development build under [<StrictMode>], which is how
    [main.tsx] mounts the application. *)
Record World : Type := mkWorld {
  dash : Dashboard;
  alerts : list string;
  console : list (string * JsError);
  requests : list Request;
  time : nat → string;
  reads : nat;
  strict_reruns : nat
}.

Definition initial_dashboard : Dashboard :=
  {| reports := []; loading := true; error := None; statusFilter := all |}.

Definition with_dash (f : Dashboard → Dashboard) (w : World) : World :=
  {| dash := f (dash w); alerts := alerts w; console := console w;
     requests := requests w; time := time w; reads := reads w;
     strict_reruns := strict_reruns w |}.

Definition setReports (f : list ReportWithVotes.t → list ReportWithVotes.t)
    : World → World :=
  with_dash (λ d, {| reports := f (reports d); loading := loading d;
                     error := error d; statusFilter := statusFilter d |}).

Definition setLoading (b : bool) : World → World :=
  with_dash (λ d, {| reports := reports d; loading := b;
                     error := error d; statusFilter := statusFilter d |}).

Definition setError (e : option string) : World → World :=
  with_dash (λ d, {| reports := reports d; loading := loading d;
                     error := e; statusFilter := statusFilter d |}).

Definition setStatusFilter (s : StatusFilter) : World → World :=
  with_dash (λ d, {| reports := reports d; loading := loading d;
                     error := error d; statusFilter := s |}).

Definition alert (msg : string) (w : World) : World :=
  {| dash := dash w; alerts := alerts w ++ [msg]; console := console w;
     requests := requests w; time := time w; reads := reads w;
     strict_reruns := strict_reruns w |}.

Definition console_error (msg : string) (err : JsError) (w : World) : World :=
  {| dash := dash w; alerts := alerts w; console := console w ++ [(msg, err)];
     requests := requests w; time := time w; reads := reads w;
     strict_reruns := strict_reruns w |}.

Definition send (rq : Request) (w : World) : World :=
  {| dash := dash w; alerts := alerts w; console := console w;
     requests := requests w ++ [rq]; time := time w; reads := reads w;
     strict_reruns := strict_reruns w |}.

(** ** Statements that may throw: state and exception *)

Definition M (A : Type) : Type := World → World * (JsError + A).

#[global] Instance M_ret : MRet M := λ A a w, (w, inr a).

#[global] Instance M_bind : MBind M := λ A B f c w,
  match c w with
  | (w', inr a) => f a w'
  | (w', inl e) => (w', inl e)
  end.

Definition throw {A : Type} (e : JsError) : M A := λ w, (w, inl e).

Definition effect (f : World → World) : M unit := λ w, (f w, inr tt).

(** [try { body } catch (err) { handler }] *)
Definition try_catch (body : M unit) (handler : JsError → World → World)
    : World → World :=
  λ w, match body w with
       | (w', inr _) => w'
       | (w', inl err) => handler err w'
       end.

(** [new Date().toISOString()] *)
Definition now : M string :=
  λ w, ({| dash := dash w; alerts := alerts w; console := console w;
           requests := requests w; time := time w; reads := S (reads w);
           strict_reruns := strict_reruns w |},
        inr (time w (reads w))).

(** [const { data, error } = await <select>; if (error) throw error;] *)
Definition select {A : Type} (rq : Request) (reply : Reply A)
    : M (option (list A)) :=
  _ ← effect (send rq);
  match reply with
  | Rejected e => throw e
  | Resolved data (Some e) => throw e
  | Resolved data None => mret data
  end.

(** [const { error } = await <update>; if (error) throw error;] *)
Definition update (rq : Request) (reply : UpdateReply) : M unit :=
  _ ← effect (send rq);
  match reply with
  | UpdateRejected e => throw e
  | UpdateResolved (Some e) => throw e
  | UpdateResolved None => mret tt
  end.

(** ** [fetchReports] *)

(** The [catch] and [finally] blocks, the same in both variants. *)
Definition fetch_failed (err : JsError) (w : World) : World :=
  console_error "Error fetching reports:" err
    (setError (Some (if instanceof_Error err then message err
                     else "An error occurred")) w).

Module MuiFetch.
Definition fetchReports (r1 : Reply Report.t) (r2 : Reply Interaction.t)
    (r3 : Reply Profile.t) (w : World) : World :=
  setLoading false
    (try_catch
       (_ ← effect (setLoading true);
        _ ← effect (setError None);
        reportsData ← select SelectReports r1;
        interactionsData ← select SelectInteractions r2;
        profilesData ← select SelectProfiles r3;
        effect (setReports
                  (λ _, Mui.aggregate reportsData interactionsData
                          profilesData)))
       fetch_failed w).
End MuiFetch.

Module PlainFetch.
Definition fetchReports (r1 : Reply Report.t) (r2 : Reply Interaction.t)
    (w : World) : World :=
  setLoading false
    (try_catch
       (_ ← effect (setLoading true);
        _ ← effect (setError None);
        reportsData ← select SelectReports r1;
        interactionsData ← select SelectInteractions r2;
        effect (setReports
                  (λ _, Plain.aggregate reportsData interactionsData)))
       fetch_failed w).
End PlainFetch.

(** ** [updateReportStatus] *)

(** The callback of [prev.map]: a matching report is rebuilt with the new
    status and a fresh clock reading, any other is returned as it is. *)
Definition mirror_one (reportId : string) (newStatus : ReportStatus)
    (report : ReportWithVotes.t) : M ReportWithVotes.t :=
  if decide (ReportWithVotes.id report = reportId)
  then t ← now; mret (ReportWithVotes.with_status report newStatus t)
  else mret report.

(** An updater function as React runs it: [n] runs whose results are
    dropped, then the run whose result is kept. *)
Fixpoint rerun {A : Type} (n : nat) (updater : M A) : M A :=
  match n with
  | 0 => updater
  | S n' => _ ← updater; rerun n' updater
  end.

(** [setReports(prev => prev.map(..))]: every run of the updater gets the
    same [prev]. *)
Definition mirror (reportId : string) (newStatus : ReportStatus) : M unit :=
  λ w, match rerun (strict_reruns w)
               (mapM (mirror_one reportId newStatus) (reports (dash w))) w
       with
       | (w', inr l) => (setReports (λ _, l) w', inr tt)
       | (w', inl e) => (w', inl e)
       end.

(** The same function in both variants. *)
Definition updateReportStatus (reply : UpdateReply) (reportId : string)
    (newStatus : ReportStatus) : World → World :=
  try_catch
    (t ← now;
     _ ← update (UpdateReport reportId newStatus t) reply;
     mirror reportId newStatus)
    (λ err w, alert "Failed to update status"
                (console_error "Error updating status:" err w)).

(** ** The specification's own words, to compare the code with *)

(** The number of interactions [i] with [i.report_id == rid] and
    [i.interaction_type == ty]. *)
Fixpoint count_votes (interactions : list Interaction.t) (rid : string)
    (ty : InteractionType) : nat :=
  match interactions with
  | [] => 0
  | i :: rest =>
      (if decide (Interaction.report_id i = rid
                  ∧ Interaction.interaction_type i = ty)
       then 1 else 0) + count_votes rest rid ty
  end.

(** [selects P l l']: [l'] is [l] with exactly the elements satisfying [P]
    kept, in their order. *)
Inductive selects {A : Type} (P : A → Prop) : list A → list A → Prop :=
  | selects_nil : selects P [] []
  | selects_keep x l l' : P x → selects P l l' → selects P (x :: l) (x :: l')
  | selects_drop x l l' : ¬ P x → selects P l l' → selects P (x :: l) l'.

(** A row [row'] agrees with [row] on every field but [status] and
    [updated_at]. *)
Definition same_but_status (row row' : ReportWithVotes.t) : Prop :=
  ReportWithVotes.id row' = ReportWithVotes.id row
  ∧ ReportWithVotes.user_id row' = ReportWithVotes.user_id row
  ∧ ReportWithVotes.title row' = ReportWithVotes.title row
  ∧ ReportWithVotes.description row' = ReportWithVotes.description row
  ∧ ReportWithVotes.category row' = ReportWithVotes.category row
  ∧ ReportWithVotes.latitude row' = ReportWithVotes.latitude row
  ∧ ReportWithVotes.longitude row' = ReportWithVotes.longitude row
  ∧ ReportWithVotes.location_name row' = ReportWithVotes.location_name row
  ∧ ReportWithVotes.photo_urls row' = ReportWithVotes.photo_urls row
  ∧ ReportWithVotes.eta_days row' = ReportWithVotes.eta_days row
  ∧ ReportWithVotes.created_at row' = ReportWithVotes.created_at row
  ∧ ReportWithVotes.is_anonymous row' = ReportWithVotes.is_anonymous row
  ∧ ReportWithVotes.upvotes row' = ReportWithVotes.upvotes row
  ∧ ReportWithVotes.downvotes row' = ReportWithVotes.downvotes row
  ∧ ReportWithVotes.reporter_name row' = ReportWithVotes.reporter_name row.

(** What a row says about votes: whose row it is and its two counters. *)
Definition votes_of (row : ReportWithVotes.t) : string * nat * nat :=
  (ReportWithVotes.id row, ReportWithVotes.upvotes row,
   ReportWithVotes.downvotes row).

(** What the specification asks of the row of [r]: its id and the two
    counts. *)
Definition expected_votes (I : list Interaction.t) (r : Report.t)
    : string * nat * nat :=
  (Report.id r, count_votes I (Report.id r) upvote,
   count_votes I (Report.id r) downvote).

(** The world after [n] more clock readings and nothing else. *)
Definition advance (n : nat) (w : World) : World :=
  {| dash := dash w; alerts := alerts w; console := console w;
     requests := requests w; time := time w; reads := reads w + n;
     strict_reruns := strict_reruns w |}.

(** What the status mutator may do to one row: a row with another id stays
    as it is; a row with the given id gets the target status and, as
    [updated_at], a clock reading taken from reading number [from] on and
    before reading number [upto], every other field staying as it was. *)
Definition mirrored (reportId : string) (newStatus : ReportStatus)
    (clock : nat → string) (from upto : nat)
    (row row' : ReportWithVotes.t) : Prop :=
  (ReportWithVotes.id row ≠ reportId → row' = row)
  ∧ (ReportWithVotes.id row = reportId →
     ReportWithVotes.status row' = newStatus
     ∧ (∃ k, from ≤ k < upto ∧ ReportWithVotes.updated_at row' = clock k)
     ∧ same_but_status row row').

(** ** What the component shows *)

(** The string a status is at run time (the literals of the [ReportStatus]
    union, as the [switch] statements and the menu items spell them). *)
Definition status_string (s : ReportStatus) : string :=
  match s with
  | reported => "reported"
  | in_progress => "in_progress"
  | resolved => "resolved"
  end.

(** [getStatusColor] of [src/AdminDashboard.tsx], a [switch] on the string
    with a [default] branch. *)
Definition getStatusColor (status : string) : string :=
  if String.eqb status "reported" then "warning"
  else if String.eqb status "in_progress" then "info"
  else if String.eqb status "resolved" then "success"
  else "info".

(** [getStatusBadgeClass] of the plain variant. *)
Definition getStatusBadgeClass (status : string) : string :=
  if String.eqb status "reported" then "badge-warning"
  else if String.eqb status "in_progress" then "badge-primary"
  else if String.eqb status "resolved" then "badge-success"
  else "badge-default".

(** [s.replace(pat, rep)] for a pattern and a replacement of one character:
    the first occurrence is replaced, the rest of the string is kept. *)
Fixpoint replace_first (pat rep : Ascii.ascii) (s : string) : string :=
  match s with
  | EmptyString => EmptyString
  | String c rest =>
      if Ascii.eqb c pat then String rep rest
      else String c (replace_first pat rep rest)
  end.

(** [report.status.replace("_", " ")], the label of the status chip. *)
Definition status_label (status : string) : string :=
  replace_first "_"%char " "%char status.

(** The four stat cards of the plain variant (lines 163-180): the number of
    reports, and the numbers of reports of each status. *)
Record Stats : Type := mkStats {
  total : nat;
  pending : nat;
  progressing : nat;
  done_ : nat
}.

Definition stats (rows : list ReportWithVotes.t) : Stats :=
  {| total := length rows;
     pending :=
       length (filter (λ r, ReportWithVotes.status r = reported) rows);
     progressing :=
       length (filter (λ r, ReportWithVotes.status r = in_progress) rows);
     done_ :=
       length (filter (λ r, ReportWithVotes.status r = resolved) rows) |}.

(** What the component returns: the spinner while [loading]; the error with
    its retry button when [error] is truthy; else the table of the filtered
    reports, with the note "No reports found" when there is none. *)
Inductive View : Type :=
  | Spinner
  | ErrorView (msg : string)
  | TableView (rows : list ReportWithVotes.t) (no_reports_found : bool).

(** The table: [filteredReports.map(..)] and
    [filteredReports.length === 0 && <note>]. *)
Definition table_view (f : StatusFilter) (rows : list ReportWithVotes.t)
    : View :=
  TableView (filteredReports f rows)
    (bool_decide (length (filteredReports f rows) = 0)).

Definition render (d : Dashboard) : View :=
  if loading d then Spinner
  else match error d with
       | Some msg =>
           if String.eqb msg "" then table_view (statusFilter d) (reports d)
           else ErrorView msg
       | None => table_view (statusFilter d) (reports d)
       end.

(** ** More of the specification's vocabulary *)

(** The error of a reply, if it has one: the value [fetchReports] throws. *)
Definition reply_error {A : Type} (r : Reply A) : option JsError :=
  match r with
  | Rejected e => Some e
  | Resolved _ oe => oe
  end.

(** The data of a reply. *)
Definition reply_data {A : Type} (r : Reply A) : option (list A) :=
  match r with
  | Rejected _ => None
  | Resolved d _ => d
  end.

(** The error of an update reply, if it has one. *)
Definition update_error (r : UpdateReply) : option JsError :=
  match r with
  | UpdateRejected e => Some e
  | UpdateResolved oe => oe
  end.

(** The message [fetchReports] stores for a caught value. *)
Definition shown_message (e : JsError) : string :=
  if instanceof_Error e then message e else "An error occurred".

(** What a failed fetch leaves of the world [w]: the rows and the filter as
    they were, the message of the error, no spinner, the requests in [sent]
    and no other, one line on the console, no alert, the clock not read. *)
Definition fetch_failed_with (e : JsError) (sent : list Request)
    (w w' : World) : Prop :=
  reports (dash w') = reports (dash w)
  ∧ statusFilter (dash w') = statusFilter (dash w)
  ∧ error (dash w') = Some (shown_message e)
  ∧ loading (dash w') = false
  ∧ requests w' = requests w ++ sent
  ∧ console w' = console w ++ [("Error fetching reports:", e)]
  ∧ alerts w' = alerts w
  ∧ reads w' = reads w.

(** What a fetch that went through leaves of the world [w]: the new rows,
    the filter as it was, no error, no spinner, the requests in [sent], and
    nothing logged or alerted. *)
Definition fetch_succeeded_with (rows : list ReportWithVotes.t)
    (sent : list Request) (w w' : World) : Prop :=
  reports (dash w') = rows
  ∧ statusFilter (dash w') = statusFilter (dash w)
  ∧ error (dash w') = None
  ∧ loading (dash w') = false
  ∧ requests w' = requests w ++ sent
  ∧ console w' = console w
  ∧ alerts w' = alerts w
  ∧ reads w' = reads w.

(** The error of the first reply that has one. *)
Definition first_error (errors : list (option JsError)) : option JsError :=
  head (omap (λ oe, oe) errors).

(** A row without its reporter name. *)
Definition without_name (row : ReportWithVotes.t) : ReportWithVotes.t :=
  {| ReportWithVotes.id := ReportWithVotes.id row;
     ReportWithVotes.user_id := ReportWithVotes.user_id row;
     ReportWithVotes.title := ReportWithVotes.title row;
     ReportWithVotes.description := ReportWithVotes.description row;
     ReportWithVotes.category := ReportWithVotes.category row;
     ReportWithVotes.status := ReportWithVotes.status row;
     ReportWithVotes.latitude := ReportWithVotes.latitude row;
     ReportWithVotes.longitude := ReportWithVotes.longitude row;
     ReportWithVotes.location_name := ReportWithVotes.location_name row;
     ReportWithVotes.photo_urls := ReportWithVotes.photo_urls row;
     ReportWithVotes.eta_days := ReportWithVotes.eta_days row;
     ReportWithVotes.created_at := ReportWithVotes.created_at row;
     ReportWithVotes.updated_at := ReportWithVotes.updated_at row;
     ReportWithVotes.is_anonymous := ReportWithVotes.is_anonymous row;
     ReportWithVotes.upvotes := ReportWithVotes.upvotes row;
     ReportWithVotes.downvotes := ReportWithVotes.downvotes row;
     ReportWithVotes.reporter_name := None |}.

(** The votes a row shows, both kinds together. *)
Definition votes_shown (row : ReportWithVotes.t) : nat :=
  ReportWithVotes.upvotes row + ReportWithVotes.downvotes row.

(** The rows of a list that have the given id. *)
Definition rows_with_id (reportId : string)
    (rows : list ReportWithVotes.t) : list ReportWithVotes.t :=
  filter (λ row, ReportWithVotes.id row = reportId) rows.

(** Whether a string has the character. *)
Fixpoint has_char (c : Ascii.ascii) (s : string) : bool :=
  match s with
  | EmptyString => false
  | String c' rest => Ascii.eqb c' c || has_char c rest
  end.

(** ** The aggregation step over the objects it works on

    The fetched collections are arrays of references to objects; [map],
    [filter] and the object literal build new arrays and objects, and
    [profilesMap.set] writes into the [Map] the step has made.  Here the
    step (lines 82-118, and 36-57 of the plain variant) is written over a
    store of such objects, so that what it reads, what it makes and what it
    writes can be told apart. *)

(** What a reference may lead to. *)
Inductive Cell : Type :=
  | CReport (report : Report.t)
  | CInteraction (interaction : Interaction.t)
  | CProfile (profile : Profile.t)
  | CRow (row : ReportWithVotes.t)
  | CArray (items : list positive)
  | CMap (entries : gmap string positive).

(** A statement over the store: it returns a value and the store it leaves,
    or throws a [TypeError] ([None]) when a reference does not lead to what
    the statement reads there. *)
Definition JS (A : Type) : Type :=
  gmap positive Cell → option (A * gmap positive Cell).

#[global] Instance JS_ret : MRet JS := λ A a h, Some (a, h).

#[global] Instance JS_bind : MBind JS := λ A B f c h,
  match c h with
  | Some (a, h') => f a h'
  | None => None
  end.

(** A new object: a reference that the store does not have yet. *)
Definition alloc (c : Cell) : JS positive :=
  λ h, let l := fresh (dom h) in Some (l, <[l := c]> h).

Definition read_array (l : positive) : JS (list positive) :=
  λ h, match h !! l with
       | Some (CArray items) => Some (items, h)
       | _ => None
       end.

Definition read_report (l : positive) : JS Report.t :=
  λ h, match h !! l with
       | Some (CReport report) => Some (report, h)
       | _ => None
       end.

Definition read_interaction (l : positive) : JS Interaction.t :=
  λ h, match h !! l with
       | Some (CInteraction interaction) => Some (interaction, h)
       | _ => None
       end.

Definition read_profile (l : positive) : JS Profile.t :=
  λ h, match h !! l with
       | Some (CProfile profile) => Some (profile, h)
       | _ => None
       end.

(** [map.get(key)]: the reference stored under the key, if any. *)
Definition map_get (lm : positive) (key : string) : JS (option positive) :=
  λ h, match h !! lm with
       | Some (CMap entries) => Some (entries !! key, h)
       | _ => None
       end.

(** [map.set(key, value)]: the one statement that writes into an object
    that is already there. *)
Definition map_set (lm : positive) (key : string) (value : positive)
    : JS unit :=
  λ h, match h !! lm with
       | Some (CMap entries) =>
           Some (tt, <[lm := CMap (<[key := value]> entries)]> h)
       | _ => None
       end.

(** The callback of [filter] applied to the items in turn; the items that
    pass are kept, as references. *)
Fixpoint filter_items {A : Type} (read : positive → JS A) (pred : A → bool)
    (items : list positive) : JS (list positive) :=
  match items with
  | [] => mret []
  | l :: rest =>
      x ← read l;
      kept ← filter_items read pred rest;
      mret (if pred x then l :: kept else kept)
  end.

(** [arr.filter(pred)]: a new array. *)
Definition array_filter {A : Type} (read : positive → JS A)
    (pred : A → bool) (arr : positive) : JS positive :=
  items ← read_array arr;
  kept ← filter_items read pred items;
  alloc (CArray kept).

(** [arr.length] *)
Definition array_length (arr : positive) : JS nat :=
  items ← read_array arr; mret (length items).

(** [arr.map(f)]: a new array of what [f] returns. *)
Definition array_map (f : positive → JS positive) (arr : positive)
    : JS positive :=
  items ← read_array arr;
  out ← mapM f items;
  alloc (CArray out).

(** [arr.forEach(f)] *)
Fixpoint for_each (items : list positive) (f : positive → JS unit)
    : JS unit :=
  match items with
  | [] => mret tt
  | l :: rest => _ ← f l; for_each rest f
  end.

(** [interactionsData?.filter(i => i.report_id === report.id) || []] *)
Definition interactions_of (interactionsData : option positive)
    (report : Report.t) : JS positive :=
  match interactionsData with
  | Some li =>
      array_filter read_interaction
        (λ interaction,
           bool_decide (Interaction.report_id interaction = Report.id report))
        li
  | None => alloc (CArray [])
  end.

(** [reportInteractions.filter(i => i.interaction_type === ty).length] *)
Definition tally_of (ty : InteractionType) (ris : positive) : JS nat :=
  kept ← array_filter read_interaction
           (λ interaction,
              bool_decide (Interaction.interaction_type interaction = ty))
           ris;
  array_length kept.

(** Lines 105-109: the name, read through [profilesMap]. *)
Definition reporter_name_of (pm : positive) (report : Report.t) : JS string :=
  if Report.is_anonymous report then mret "Anonymous"
  else
    found ← map_get pm (Report.user_id report);
    match found with
    | Some lp =>
        profile ← read_profile lp;
        mret (js_or_lit (js_or (Profile.full_name profile)
                               (Some (Profile.email profile)))
                        "Unknown")
    | None => mret "Unknown"
    end.

(** The callback of [(reportsData || []).map]: it reads the report, makes
    the three filtered arrays and the row.  [namer] is what the variant
    does for the reporter name. *)
Definition row_of (namer : Report.t → JS (option string))
    (interactionsData : option positive) (lreport : positive)
    : JS positive :=
  report ← read_report lreport;
  ris ← interactions_of interactionsData report;
  up ← tally_of upvote ris;
  down ← tally_of downvote ris;
  name ← namer report;
  alloc (CRow (ReportWithVotes.spread report up down name)).

(** [(reportsData || []).map(..)] *)
Definition rows_of (namer : Report.t → JS (option string))
    (reportsData interactionsData : option positive) : JS positive :=
  arr ← match reportsData with
        | Some lr => mret lr
        | None => alloc (CArray [])
        end;
  array_map (row_of namer interactionsData) arr.

Module MuiStore.
(** Lines 82-118. *)
Definition aggregate (reportsData interactionsData profilesData
    : option positive) : JS positive :=
  pm ← alloc (CMap ∅);
  _ ← match profilesData with
      | Some lp =>
          items ← read_array lp;
          for_each items
            (λ l, profile ← read_profile l;
                  map_set pm (Profile.id profile) l)
      | None => mret tt
      end;
  rows_of (λ report, name ← reporter_name_of pm report; mret (Some name))
    reportsData interactionsData.
End MuiStore.

Module PlainStore.
(** Lines 36-57 of the plain variant. *)
Definition aggregate (reportsData interactionsData : option positive)
    : JS positive :=
  rows_of (λ _, mret None) reportsData interactionsData.
End PlainStore.

(** The references [items] lead, one by one, to the objects [xs]. *)
Definition points_to {A : Type} (inj : A → Cell) (h : gmap positive Cell)
    (items : list positive) (xs : list A) : Prop :=
  Forall2 (λ l x, h !! l = Some (inj x)) items xs.

(** A fetched collection in the store: null, or a reference to an array
    whose items lead to the objects of the collection, in order. *)
Definition holds_array {A : Type} (inj : A → Cell) (h : gmap positive Cell)
    (data : option positive) (xs : option (list A)) : Prop :=
  match data, xs with
  | Some l, Some xs =>
      ∃ items, h !! l = Some (CArray items) ∧ points_to inj h items xs
  | None, None => True
  | _, _ => False
  end.

(** Every object of [h] is in [h'], as it was. *)
Definition untouched (h h' : gmap positive Cell) : Prop :=
  ∀ l c, h !! l = Some c → h' !! l = Some c.

(** What [profilesMap] has after the [forEach] over the items and their
    profiles, starting from [entries]. *)
Definition set_all (entries : gmap string positive) (items : list positive)
    (ps : list Profile.t) : gmap string positive :=
  foldl (λ acc lp, <[Profile.id lp.2 := lp.1]> acc) entries (zip items ps).

(** The references of [entries] lead to the profiles of [pmap], key by
    key. *)
Definition mirrors_map (h : gmap positive Cell)
    (entries : gmap string positive) (pmap : gmap string Profile.t) : Prop :=
  ∀ key,
    match entries !! key with
    | Some l => ∃ p, h !! l = Some (CProfile p) ∧ pmap !! key = Some p
    | None => pmap !! key = None
    end.

(** The rows an array of the store holds, read back. *)
Definition rows_at (h : gmap positive Cell) (out : positive)
    : option (list ReportWithVotes.t) :=
  match h !! out with
  | Some (CArray items) =>
      mapM (λ l, match h !! l with
                 | Some (CRow row) => Some row
                 | _ => None
                 end) items
  | _ => None
  end.

(** ** Sample data *)

Definition report_a : Report.t :=
  {| Report.id := "a"; Report.user_id := "u1"; Report.title := "Pothole";
     Report.description := None; Report.category := pothole;
     Report.status := reported; Report.latitude := None;
     Report.longitude := None;
     Report.location_name := None; Report.photo_urls := None;
     Report.eta_days := None;
     Report.created_at := "2024-01-01T00:00:00.000Z";
     Report.updated_at := "2024-01-01T00:00:00.000Z";
     Report.is_anonymous := false |}.

Definition vote (n : string) (rid : string) (ty : InteractionType)
    : Interaction.t :=
  {| Interaction.id := n; Interaction.report_id := rid;
     Interaction.user_id := String.append "v" n; Interaction.interaction_type := ty;
     Interaction.created_at := "2024-01-02T00:00:00.000Z";
     Interaction.updated_at := "2024-01-02T00:00:00.000Z" |}.

Definition votes_a : list Interaction.t :=
  [vote "1" "a" upvote; vote "2" "a" upvote; vote "3" "a" downvote].

Definition report_b : Report.t :=
  {| Report.id := "b"; Report.user_id := "u1"; Report.title := "Dark street";
     Report.description := Some "Lamp out since Monday";
     Report.category := streetlight;
     Report.status := in_progress;
     Report.latitude := Some (S754_finite false 5590787154766197 (-49));
     Report.longitude := Some (S754_finite false 5366944302519047 (-46));
     Report.location_name := Some "MG Road"; Report.photo_urls := Some [];
     Report.eta_days := Some (S754_finite false 3 0);
     Report.created_at := "2024-01-03T00:00:00.000Z";
     Report.updated_at := "2024-01-04T00:00:00.000Z";
     Report.is_anonymous := true |}.

Definition profile_u1 : Profile.t :=
  {| Profile.id := "u1"; Profile.full_name := Some "Asha Rao";
     Profile.email := "asha@example.org" |}.

Definition profile_u2 : Profile.t :=
  {| Profile.id := "u2"; Profile.full_name := None;
     Profile.email := "u2@example.org" |}.

(** A profile of user "u1" whose full name is the empty string. *)
Definition profile_blank : Profile.t :=
  {| Profile.id := "u1"; Profile.full_name := Some "";
     Profile.email := "blank@example.org" |}.

Definition sample_clock (k : nat) : string :=
  match k with
  | 0 => "2024-02-01T10:00:00.000Z"
  | 1 => "2024-02-01T10:00:01.000Z"
  | _ => "2024-02-01T10:00:02.000Z"
  end.

Definition sample_rows : list ReportWithVotes.t :=
  Mui.aggregate (Some [report_a; report_b]) (Some votes_a)
    (Some [profile_u1]).

Definition sample_world : World :=
  {| dash := {| reports := sample_rows; loading := false; error := None;
                statusFilter := all |};
     alerts := []; console := []; requests := [];
     time := sample_clock; reads := 0; strict_reruns := 0 |}.

(** The same world in a development build under [<StrictMode>]. *)
Definition sample_world_strict : World :=
  {| dash := dash sample_world; alerts := []; console := []; requests := [];
     time := sample_clock; reads := 0; strict_reruns := 1 |}.

Definition network_down : JsError :=
  {| instanceof_Error := true; message := "Failed to fetch" |}.

(** Two stores that hold the sample collections at different places: the
    reports, their array, the interactions, their array, the profile and
    its array; the second has a [Map] of its own besides. *)
Definition sample_store_1 : gmap positive Cell :=
  list_to_map
    [(1%positive, CReport report_a); (2%positive, CReport report_b);
     (3%positive, CArray [1%positive; 2%positive]);
     (4%positive, CInteraction (vote "1" "a" upvote));
     (5%positive, CInteraction (vote "2" "a" upvote));
     (6%positive, CInteraction (vote "3" "a" downvote));
     (7%positive, CArray [4%positive; 5%positive; 6%positive]);
     (8%positive, CProfile profile_u1);
     (9%positive, CArray [8%positive])].

Definition sample_store_2 : gmap positive Cell :=
  list_to_map
    [(11%positive, CReport report_b); (12%positive, CReport report_a);
     (20%positive, CArray [12%positive; 11%positive]);
     (40%positive, CInteraction (vote "1" "a" upvote));
     (41%positive, CInteraction (vote "2" "a" upvote));
     (42%positive, CInteraction (vote "3" "a" downvote));
     (50%positive, CArray [40%positive; 41%positive; 42%positive]);
     (60%positive, CProfile profile_u1);
     (61%positive, CArray [60%positive]);
     (70%positive, CMap {[ "u1" := 60%positive ]})].

(** * Properties *)

(** ** Vote tallies *)

Section Tally.
Implicit Types (I : list Interaction.t) (r : Report.t).

(** Filtering by report and then by type counts exactly the interactions
    that satisfy both tests. *)
Lemma tally_filter_count I rid ty :
  tally ty (filter (λ i, Interaction.report_id i = rid) I)
  = count_votes I rid ty.
Proof.
  unfold tally. induction I as [|i I IH]; [done|].
  rewrite filter_cons. cbn [count_votes].
  destruct (decide (Interaction.report_id i = rid)) as [Hr|Hr].
  - rewrite filter_cons.
    destruct (decide (Interaction.interaction_type i = ty)) as [Ht|Ht].
    + rewrite decide_True by done. cbn. by rewrite IH.
    + rewrite decide_False by tauto. by rewrite IH.
  - rewrite decide_False by tauto. by rewrite IH.
Qed.

Lemma tally_reportInteractions I r ty :
  tally ty (reportInteractions (Some I) r)
  = count_votes I (Report.id r) ty.
Proof. apply tally_filter_count. Qed.

Lemma tally_no_interactions r ty :
  tally ty (reportInteractions None r) = 0.
Proof. done. Qed.

Lemma count_votes_none I rid ty :
  Forall (λ i, Interaction.report_id i ≠ rid) I → count_votes I rid ty = 0.
Proof.
  induction 1 as [|i I Hi _ IH]; [done|].
  cbn [count_votes]. rewrite decide_False by tauto. by rewrite IH.
Qed.
End Tally.

(** C1: in both variants the rows of the aggregator carry, report by report
    and in order, upvotes equal to the number of interactions with the
    report's id and type upvote, and downvotes equal to the number with type
    downvote; a report no interaction refers to gets 0 and 0; and the
    example of the spec (two upvotes and one downvote for report "a") gives
    upvotes 2 and downvotes 1. *)
Theorem C1_vote_counts :
  (∀ (R : list Report.t) (I : list Interaction.t)
     (P : option (list Profile.t)),
      votes_of <$> Mui.aggregate (Some R) (Some I) P
      = expected_votes I <$> R
      ∧ votes_of <$> Plain.aggregate (Some R) (Some I)
        = expected_votes I <$> R)
  ∧ (∀ (R : list Report.t) (I : list Interaction.t)
       (P : option (list Profile.t)) (k : nat) (r : Report.t),
        R !! k = Some r →
        Forall (λ i, Interaction.report_id i ≠ Report.id r) I →
        votes_of <$> Mui.aggregate (Some R) (Some I) P !! k
        = Some (Report.id r, 0, 0)
        ∧ votes_of <$> Plain.aggregate (Some R) (Some I) !! k
          = Some (Report.id r, 0, 0))
  ∧ (∀ P : option (list Profile.t),
        votes_of <$> Mui.aggregate (Some [report_a]) (Some votes_a) P
        = [("a", 2, 1)])
  ∧ votes_of <$> Plain.aggregate (Some [report_a]) (Some votes_a)
    = [("a", 2, 1)].
Proof.
  assert (Hall : ∀ R I P,
      votes_of <$> Mui.aggregate (Some R) (Some I) P = expected_votes I <$> R
      ∧ votes_of <$> Plain.aggregate (Some R) (Some I)
        = expected_votes I <$> R).
  { intros R I P. unfold Mui.aggregate, Plain.aggregate.
    rewrite <- !list_fmap_compose.
    split; apply list_fmap_ext; intros _ r _;
      unfold votes_of, expected_votes, compose;
      cbn [ReportWithVotes.spread ReportWithVotes.id ReportWithVotes.upvotes
           ReportWithVotes.downvotes];
      by rewrite !tally_reportInteractions. }
  split; [exact Hall|]. split; [|split].
  - intros R I P k r Hk Hnone.
    destruct (Hall R I P) as [Hm Hp].
    rewrite <- !list_lookup_fmap, Hm, Hp, list_lookup_fmap, Hk. cbn.
    unfold expected_votes. by rewrite !count_votes_none.
  - intros P. by rewrite (proj1 (Hall _ _ P)).
  - by rewrite (proj2 (Hall _ _ None)).
Qed.

(** ** Reporter names *)

Section ReporterName.
Implicit Types (profiles : list Profile.t) (p : Profile.t) (r : Report.t).

Lemma profilesMap_snoc profiles p :
  profilesMap (Some (profiles ++ [p]))
  = <[Profile.id p := p]> (profilesMap (Some profiles)).
Proof. unfold profilesMap. cbn. by rewrite foldl_app. Qed.

(** No profile with that id: nothing is found. *)
Lemma profilesMap_absent profiles uid :
  Forall (λ q, Profile.id q ≠ uid) profiles →
  profilesMap (Some profiles) !! uid = None.
Proof.
  induction profiles as [|q profiles IH] using rev_ind; intros Hall.
  - apply lookup_empty.
  - apply Forall_app in Hall as [Hl Hq]. apply Forall_inv in Hq.
    rewrite profilesMap_snoc, lookup_insert_ne by done. auto.
Qed.

(** The last profile with that id is the one found. *)
Lemma profilesMap_last before p after :
  Forall (λ q, Profile.id q ≠ Profile.id p) after →
  profilesMap (Some (before ++ p :: after)) !! Profile.id p = Some p.
Proof.
  induction after as [|q after IH] using rev_ind; intros Hall.
  - by rewrite profilesMap_snoc, lookup_insert_eq.
  - apply Forall_app in Hall as [Hl Hq]. apply Forall_inv in Hq.
    replace (before ++ p :: after ++ [q])
      with ((before ++ p :: after) ++ [q]) by by rewrite <- app_assoc.
    rewrite profilesMap_snoc, lookup_insert_ne by done. auto.
Qed.

Lemma profilesMap_null uid : profilesMap None !! uid = None.
Proof. apply lookup_empty. Qed.

(** The name written into the row of the [k]-th report. *)
Lemma aggregate_reporter_name R I P k r :
  or_empty R !! k = Some r →
  ReportWithVotes.reporter_name <$> Mui.aggregate R I P !! k
  = Some (Some (resolve_reporter_name (profilesMap P) r)).
Proof.
  intros Hk. unfold Mui.aggregate. by rewrite list_lookup_fmap, Hk.
Qed.

Lemma resolve_found pm r p :
  Report.is_anonymous r = false →
  pm !! Report.user_id r = Some p →
  resolve_reporter_name pm r
  = js_or_lit (js_or (Profile.full_name p) (Some (Profile.email p)))
              "Unknown".
Proof. intros Ha Hp. unfold resolve_reporter_name. by rewrite Ha, Hp. Qed.

Lemma resolve_not_found pm r :
  Report.is_anonymous r = false →
  pm !! Report.user_id r = None →
  resolve_reporter_name pm r = "Unknown".
Proof. intros Ha Hp. unfold resolve_reporter_name. by rewrite Ha, Hp. Qed.

Lemma eqb_empty_false (s : string) : s ≠ "" → String.eqb s "" = false.
Proof. intros Hs. by apply String.eqb_neq. Qed.

(** The three outcomes of [full_name || email || "Unknown"]. *)
Lemma chain_full_name n (e : option string) :
  n ≠ "" → js_or_lit (js_or (Some n) e) "Unknown" = n.
Proof.
  intros Hn. unfold js_or, truthy.
  rewrite (eqb_empty_false n Hn). cbn. by rewrite (eqb_empty_false n Hn).
Qed.

Lemma chain_email (fn : option string) e :
  fn = None ∨ fn = Some "" → e ≠ "" →
  js_or_lit (js_or fn (Some e)) "Unknown" = e.
Proof.
  intros [-> | ->] He; unfold js_or; cbn; by rewrite (eqb_empty_false e He).
Qed.

Lemma chain_unknown (fn : option string) :
  fn = None ∨ fn = Some "" →
  js_or_lit (js_or fn (Some "")) "Unknown" = "Unknown".
Proof. by intros [-> | ->]. Qed.
End ReporterName.

(** C2: in the profiles variant, the row of a report whose [is_anonymous]
    flag is true has [reporter_name] "Anonymous", whatever the profiles
    collection holds. *)
Theorem C2_anonymous_forced (R : list Report.t)
    (I : option (list Interaction.t)) (P : option (list Profile.t))
    (k : nat) (r : Report.t) :
  R !! k = Some r →
  Report.is_anonymous r = true →
  ReportWithVotes.reporter_name <$> Mui.aggregate (Some R) I P !! k
  = Some (Some "Anonymous").
Proof.
  intros Hk Ha. rewrite (aggregate_reporter_name _ _ _ _ r) by done.
  unfold resolve_reporter_name. by rewrite Ha.
Qed.

(** C3: for a report that is not anonymous, the name in its row comes from
    the profile stored under the report's [user_id] (the last one of the
    collection with that id): the profile's [full_name] when it is set (not
    null and not empty), else the profile's [email] when that is not empty,
    else "Unknown"; and it is "Unknown" when the collection has no profile
    with that id. *)
Theorem C3_name_fallback (R : list Report.t)
    (I : option (list Interaction.t)) (k : nat) (r : Report.t) :
  R !! k = Some r →
  Report.is_anonymous r = false →
  (∀ before p after,
      Profile.id p = Report.user_id r →
      Forall (λ q, Profile.id q ≠ Report.user_id r) after →
      ∃ name,
        ReportWithVotes.reporter_name
          <$> Mui.aggregate (Some R) I (Some (before ++ p :: after)) !! k
        = Some (Some name)
        ∧ (∀ n, Profile.full_name p = Some n → n ≠ "" → name = n)
        ∧ (Profile.full_name p = None ∨ Profile.full_name p = Some "" →
           (Profile.email p ≠ "" → name = Profile.email p)
           ∧ (Profile.email p = "" → name = "Unknown")))
  ∧ (∀ P,
        Forall (λ q, Profile.id q ≠ Report.user_id r) (or_empty P) →
        ReportWithVotes.reporter_name <$> Mui.aggregate (Some R) I P !! k
        = Some (Some "Unknown")).
Proof.
  intros Hk Ha. split.
  - intros before p after Hid Hafter. eexists. split.
    { by apply aggregate_reporter_name. }
    rewrite (resolve_found _ r p); [|done|].
    2:{ rewrite <- Hid. apply profilesMap_last. by rewrite Hid. }
    split.
    + intros n Hn Hne. rewrite Hn. by apply chain_full_name.
    + intros Hset. split; intros He.
      * by apply chain_email.
      * rewrite He. by apply chain_unknown.
  - intros P Hnone. rewrite (aggregate_reporter_name _ _ _ _ r) by done.
    rewrite resolve_not_found; [done..|].
    destruct P as [profiles|]; [by apply profilesMap_absent|apply profilesMap_null].
Qed.

Lemma C2_anonymous_forced_witness :
  ReportWithVotes.reporter_name
    <$> Mui.aggregate (Some [report_a; report_b]) (Some votes_a)
          (Some [profile_u1]) !! 1
  = Some (Some "Anonymous").
Proof.
  apply (C2_anonymous_forced [report_a; report_b] (Some votes_a)
           (Some [profile_u1]) 1 report_b); reflexivity.
Defined.

Lemma C3_name_fallback_witness :
  ReportWithVotes.reporter_name
    <$> Mui.aggregate (Some [report_a]) None
          (Some ([profile_blank] ++ profile_u1 :: [profile_u2])) !! 0
  = Some (Some "Asha Rao")
  ∧ ReportWithVotes.reporter_name
      <$> Mui.aggregate (Some [report_a]) None (Some [profile_u2]) !! 0
    = Some (Some "Unknown").
Proof.
  destruct (C3_name_fallback [report_a] None 0 report_a eq_refl eq_refl)
    as [Hfound Hnone].
  split.
  - destruct (Hfound [profile_blank] profile_u1 [profile_u2] eq_refl)
      as (name & Hrow & Hfull & _).
    { repeat constructor. discriminate. }
    rewrite Hrow. do 2 f_equal. by apply Hfull.
  - apply (Hnone (Some [profile_u2])). repeat constructor. discriminate.
Defined.

(** C10: the fallback tests truthiness: for a report that is not anonymous
    and whose profile has the empty string as [full_name], the name in the
    row is the profile's [email], and "Unknown" when the email is the empty
    string too. *)
Theorem C10_empty_full_name (R : list Report.t)
    (I : option (list Interaction.t)) (before : list Profile.t)
    (p : Profile.t) (after : list Profile.t) (k : nat) (r : Report.t) :
  R !! k = Some r →
  Report.is_anonymous r = false →
  Profile.id p = Report.user_id r →
  Forall (λ q, Profile.id q ≠ Report.user_id r) after →
  Profile.full_name p = Some "" →
  ReportWithVotes.reporter_name
    <$> Mui.aggregate (Some R) I (Some (before ++ p :: after)) !! k
  = Some (Some (if decide (Profile.email p = "") then "Unknown"
                else Profile.email p)).
Proof.
  intros Hk Ha Hid Hafter Hfn.
  rewrite (aggregate_reporter_name _ _ _ _ r) by done.
  rewrite (resolve_found _ r p); [|done|].
  2:{ rewrite <- Hid. apply profilesMap_last. by rewrite Hid. }
  rewrite Hfn. do 2 f_equal. case_decide as He.
  - rewrite He. apply chain_unknown. by right.
  - apply chain_email; [by right|done].
Qed.

Lemma C10_empty_full_name_witness :
  ReportWithVotes.reporter_name
    <$> Mui.aggregate (Some [report_a]) (Some votes_a)
          (Some ([profile_u1] ++ profile_blank :: [profile_u2])) !! 0
  = Some (Some "blank@example.org").
Proof.
  apply (C10_empty_full_name [report_a] (Some votes_a) [profile_u1]
           profile_blank [profile_u2] 0 report_a);
    [reflexivity | reflexivity | reflexivity | | reflexivity].
  repeat constructor. discriminate.
Defined.

(** ** The status filter *)

Section Selects.
Context {A : Type} (P : A → Prop) `{!∀ x, Decision (P x)}.

Lemma selects_filter (l : list A) : selects P l (filter P l).
Proof.
  induction l as [|x l IH]; [constructor|].
  rewrite filter_cons. case_decide; by constructor.
Qed.

(** The relation leaves no choice. *)
Lemma selects_functional (l l1 l2 : list A) :
  selects P l l1 → selects P l l2 → l1 = l2.
Proof.
  intros H1. revert l2.
  induction H1 as [|x l l1 Hx _ IH|x l l1 Hx _ IH]; intros l2 H2;
    inversion H2; subst; try done.
  - f_equal. by apply IH.
  - by apply IH.
Qed.

Lemma selects_elem_of (l l' : list A) (x : A) :
  selects P l l' → x ∈ l' ↔ x ∈ l ∧ P x.
Proof.
  intros Hs. rewrite (selects_functional l l' (filter P l) Hs)
    by apply selects_filter.
  rewrite list_elem_of_filter. tauto.
Qed.
End Selects.

(** C4: filtering by one of the three status values returns exactly the
    reports whose [status] is that value, in their original order (the
    result is the one list [selects] allows, and its members are the members
    of the input with that status); filtering by "all" returns the list as
    it is. *)
Theorem C4_status_filter (rows : list ReportWithVotes.t) :
  (∀ s : ReportStatus,
      selects (λ row, ReportWithVotes.status row = s) rows
        (filteredReports (only s) rows)
      ∧ (∀ kept, selects (λ row, ReportWithVotes.status row = s) rows kept →
                 filteredReports (only s) rows = kept)
      ∧ (∀ row, row ∈ filteredReports (only s) rows
                ↔ row ∈ rows ∧ ReportWithVotes.status row = s)
      ∧ filteredReports (only s) rows `sublist_of` rows)
  ∧ filteredReports all rows = rows.
Proof.
  split; [|done]. intros s. cbn [filteredReports].
  split; [apply selects_filter; apply _|].
  split; [|split].
  - intros kept Hk. eapply selects_functional; [|exact Hk].
    apply selects_filter; apply _.
  - intros row. rewrite list_elem_of_filter. tauto.
  - apply sublist_filter.
Qed.

(** ** One row per report *)

Lemma to_report_spread (r : Report.t) (up down : nat) (name : option string) :
  ReportWithVotes.to_report (ReportWithVotes.spread r up down name) = r.
Proof. by destruct r. Qed.

(** C5: the aggregator returns one row per input report, in the order of the
    input; forgetting the added fields of a row gives back its report,
    field for field; the plain variant adds the two counters only, the
    profiles variant a reporter name as well. *)
Theorem C5_rows_follow_reports (R : list Report.t)
    (I : option (list Interaction.t)) (P : option (list Profile.t)) :
  ReportWithVotes.to_report <$> Mui.aggregate (Some R) I P = R
  ∧ ReportWithVotes.to_report <$> Plain.aggregate (Some R) I = R
  ∧ length (Mui.aggregate (Some R) I P) = length R
  ∧ length (Plain.aggregate (Some R) I) = length R
  ∧ Forall (λ row, ReportWithVotes.reporter_name row = None)
      (Plain.aggregate (Some R) I)
  ∧ Forall (λ row, is_Some (ReportWithVotes.reporter_name row))
      (Mui.aggregate (Some R) I P).
Proof.
  unfold Mui.aggregate, Plain.aggregate. cbn [or_empty].
  rewrite <- !list_fmap_compose, !length_fmap.
  repeat split.
  - rewrite <- (list_fmap_id R) at 2. apply list_fmap_ext.
    intros _ r _. apply to_report_spread.
  - rewrite <- (list_fmap_id R) at 2. apply list_fmap_ext.
    intros _ r _. apply to_report_spread.
  - apply Forall_fmap, Forall_true. intros r. reflexivity.
  - apply Forall_fmap, Forall_true. intros r. by eexists.
Qed.

(** ** The status mutator *)

Section Mutator.
Implicit Types (w : World) (rows : list ReportWithVotes.t).

Lemma advance_0 w : advance 0 w = w.
Proof. destruct w. unfold advance. cbn. f_equal. lia. Qed.

Lemma advance_advance n m w : advance n (advance m w) = advance (m + n) w.
Proof. unfold advance. cbn. f_equal. lia. Qed.

Lemma now_spec w : now w = (advance 1 w, inr (time w (reads w))).
Proof. unfold now, advance. do 2 f_equal. lia. Qed.

Lemma same_but_status_with_status row s t :
  same_but_status row (ReportWithVotes.with_status row s t).
Proof. by repeat split. Qed.

Lemma mirrored_mono reportId s clock (from upto from' upto' : nat)
    row row' :
  from' ≤ from → upto ≤ upto' →
  mirrored reportId s clock from upto row row' →
  mirrored reportId s clock from' upto' row row'.
Proof.
  intros Hf Hu [Hne Heq]. split; [done|].
  intros Hid. destruct (Heq Hid) as (Hs & (k & Hk & Ht) & Hsame).
  repeat split; try done; try apply Hsame. exists k. split; [lia|done].
Qed.

(** One call of the callback: at most one clock reading, and the row it
    returns is the mirrored one. *)
Lemma mirror_one_spec reportId s row w :
  ∃ n row',
    mirror_one reportId s row w = (advance n w, inr row')
    ∧ mirrored reportId s (time w) (reads w) (reads w + n) row row'.
Proof.
  unfold mirror_one. case_decide as Hid.
  - exists 1, (ReportWithVotes.with_status row s (time w (reads w))).
    split.
    + unfold mbind, M_bind. by rewrite now_spec.
    + split; [done|]. intros _. split; [done|]. split.
      * exists (reads w). split; [lia|done].
      * apply same_but_status_with_status.
  - exists 0, row. split.
    + by rewrite advance_0.
    + split; [done|]. intros Hid'. by destruct Hid.
Qed.

(** The whole [prev.map(..)]: it never throws, it only reads the clock,
    and it returns the rows mirrored one by one. *)
Lemma mapM_mirror_one_spec reportId s rows :
  ∀ w, ∃ n rows',
    mapM (mirror_one reportId s) rows w = (advance n w, inr rows')
    ∧ Forall2 (mirrored reportId s (time w) (reads w) (reads w + n))
        rows rows'.
Proof.
  induction rows as [|row rows IH]; intros w.
  - exists 0, []. split; [by rewrite advance_0|constructor].
  - destruct (mirror_one_spec reportId s row w) as (n1 & row' & E1 & M1).
    destruct (IH (advance n1 w)) as (n2 & rows' & E2 & M2).
    exists (n1 + n2), (row' :: rows'). split.
    + cbn [mapM]. unfold mbind at 1, M_bind at 1. rewrite E1.
      unfold mbind at 1, M_bind at 1. rewrite E2.
      by rewrite advance_advance.
    + constructor.
      * eapply mirrored_mono; [| |exact M1]; lia.
      * eapply Forall2_impl; [exact M2|]. intros x y Hxy.
        eapply mirrored_mono; [| |exact Hxy]; cbn; lia.
Qed.

(** The runs of the updater, the dropped ones and the kept one: they never
    throw, they only read the clock, and the kept run returns the rows
    mirrored one by one. *)
Lemma rerun_mirror_spec reportId s rows k :
  ∀ w, ∃ n rows',
    rerun k (mapM (mirror_one reportId s) rows) w = (advance n w, inr rows')
    ∧ Forall2 (mirrored reportId s (time w) (reads w) (reads w + n))
        rows rows'.
Proof.
  induction k as [|k IH]; intros w; [apply mapM_mirror_one_spec|].
  destruct (mapM_mirror_one_spec reportId s rows w) as (n1 & r1 & E1 & _).
  destruct (IH (advance n1 w)) as (n2 & rows' & E2 & M2).
  exists (n1 + n2), rows'. split.
  - cbn [rerun]. unfold mbind at 1, M_bind at 1. rewrite E1, E2.
    by rewrite advance_advance.
  - eapply Forall2_impl; [exact M2|]. intros x y Hxy.
    eapply mirrored_mono; [| |exact Hxy]; cbn; lia.
Qed.

(** The world a confirmed update leaves: one request sent, the clock read
    once for it and [n] times more, and the rows mirrored. *)
Lemma updateReportStatus_ok reportId s w :
  ∃ n rows',
    updateReportStatus (UpdateResolved None) reportId s w
    = setReports (λ _, rows')
        (advance n
           (send (UpdateReport reportId s (time w (reads w)))
              (advance 1 w)))
    ∧ Forall2 (mirrored reportId s (time w) (S (reads w))
                 (S (reads w) + n))
        (reports (dash w)) rows'.
Proof.
  set (w1 := send (UpdateReport reportId s (time w (reads w)))
               (advance 1 w)).
  destruct (rerun_mirror_spec reportId s (reports (dash w1))
              (strict_reruns w1) w1) as (n & rows' & E & Hm).
  exists n, rows'. split.
  - unfold updateReportStatus, try_catch.
    unfold mbind at 1, M_bind at 1. rewrite now_spec.
    unfold update, mbind at 1, M_bind at 1.
    unfold mbind at 1, M_bind at 1. cbn [effect mret M_ret].
    fold w1. unfold mirror. by rewrite E.
  - replace (S (reads w)) with (reads w1) by (cbn; lia). exact Hm.
Qed.

(** A failed update: the request was sent, the error is logged and
    alerted, and nothing else happened. *)
Lemma updateReportStatus_failed reply e reportId s w :
  reply = UpdateRejected e ∨ reply = UpdateResolved (Some e) →
  updateReportStatus reply reportId s w
  = alert "Failed to update status"
      (console_error "Error updating status:" e
         (send (UpdateReport reportId s (time w (reads w)))
            (advance 1 w))).
Proof.
  intros [-> | ->]; unfold updateReportStatus, try_catch;
    unfold mbind at 1, M_bind at 1; by rewrite now_spec.
Qed.
End Mutator.

(** C6: after a confirmed remote update, the local list has the same rows in
    the same places; a row whose id differs from the given one is the row it
    was; a row with the given id has the target status, an [updated_at] read
    from the clock during the call, and every other field as before.  The
    other cells of the component state are not touched. *)
Theorem C6_only_matching_rows_change (w : World) (reportId : string)
    (newStatus : ReportStatus) :
  let w' := updateReportStatus (UpdateResolved None) reportId newStatus w in
  Forall2 (mirrored reportId newStatus (time w) (reads w) (reads w'))
    (reports (dash w)) (reports (dash w'))
  ∧ loading (dash w') = loading (dash w)
  ∧ error (dash w') = error (dash w)
  ∧ statusFilter (dash w') = statusFilter (dash w).
Proof.
  destruct (updateReportStatus_ok reportId newStatus w)
    as (n & rows' & -> & Hm).
  cbn. repeat split.
  eapply Forall2_impl; [exact Hm|]. intros row row' H.
  eapply mirrored_mono; [| |exact H]; lia.
Qed.

(** C7: when the remote update fails, whether the awaited call throws or
    resolves with an error, the component state (the report list and the
    other cells) is what it was, and the failure is shown by one alert. *)
Theorem C7_failed_update_keeps_state (w : World) (reportId : string)
    (newStatus : ReportStatus) (e : JsError) :
  (let w' := updateReportStatus (UpdateRejected e) reportId newStatus w in
   dash w' = dash w
   ∧ alerts w' = alerts w ++ ["Failed to update status"]
   ∧ console w' = console w ++ [("Error updating status:", e)])
  ∧ (let w' :=
       updateReportStatus (UpdateResolved (Some e)) reportId newStatus w in
     dash w' = dash w
     ∧ alerts w' = alerts w ++ ["Failed to update status"]
     ∧ console w' = console w ++ [("Error updating status:", e)]).
Proof.
  split; cbn zeta;
    rewrite (updateReportStatus_failed _ e) by (by left + by right); done.
Qed.

Lemma action_buttons_spec (row : ReportWithVotes.t) (t : ReportStatus) :
  t ∈ action_buttons row ↔ t ≠ ReportWithVotes.status row.
Proof.
  unfold action_buttons.
  rewrite list_elem_of_In.
  destruct (ReportWithVotes.status row), t;
    repeat case_decide; try done; cbn; split; intros Hside;
    first [done | tauto | intuition discriminate].
Qed.

(** C8: whatever status a row with the given id has, the target included,
    a confirmed update sets it to the target and refreshes [updated_at]: the
    request is sent and nothing is alerted or logged, for every target.
    Only the table hides the button of the status the row already has. *)
Theorem C8_no_transition_check (w : World) (reportId : string)
    (t : ReportStatus) :
  (let w' := updateReportStatus (UpdateResolved None) reportId t w in
   Forall2 (λ row row',
              ReportWithVotes.id row = reportId →
              ReportWithVotes.status row' = t
              ∧ ∃ k, reads w < k < reads w'
                     ∧ ReportWithVotes.updated_at row' = time w k)
     (reports (dash w)) (reports (dash w'))
   ∧ requests w'
     = requests w ++ [UpdateReport reportId t (time w (reads w))]
   ∧ alerts w' = alerts w
   ∧ console w' = console w)
  ∧ (∀ row s, s ∈ action_buttons row ↔ s ≠ ReportWithVotes.status row).
Proof.
  split; [|apply action_buttons_spec].
  destruct (updateReportStatus_ok reportId t w) as (n & rows' & -> & Hm).
  cbn. repeat split.
  eapply Forall2_impl; [exact Hm|]. intros row row' [_ H] Hid.
  destruct (H Hid) as (Hs & (k & Hk & Ht) & _).
  split; [done|]. exists k. split; [lia|done].
Qed.

(** ** The aggregation as a function of the fetched collections *)

Lemma MuiFetch_ok R I P (w : World) :
  MuiFetch.fetchReports (Resolved R None) (Resolved I None)
    (Resolved P None) w
  = setLoading false
      (setReports (λ _, Mui.aggregate R I P)
         (send SelectProfiles
            (send SelectInteractions
               (send SelectReports (setError None (setLoading true w)))))).
Proof. reflexivity. Qed.

Lemma PlainFetch_ok R I (w : World) :
  PlainFetch.fetchReports (Resolved R None) (Resolved I None) w
  = setLoading false
      (setReports (λ _, Plain.aggregate R I)
         (send SelectInteractions
            (send SelectReports (setError None (setLoading true w))))).
Proof. reflexivity. Qed.

(** Around the aggregation, in [fetchReports]: two runs that are answered
    with the same reports, interactions and profiles end with the same list
    of rows, whatever the worlds they start from, and that list is the
    aggregate of the answers; a run changes the report list, the loading
    flag and the error only, sends nothing but the selects, alerts and logs
    nothing and does not read the clock.  The same holds for the variant
    without profiles. *)
Lemma fetchReports_rows_from_answers
    (R : option (list Report.t)) (I : option (list Interaction.t))
    (P : option (list Profile.t)) :
  (∀ w1 w2 : World,
      reports (dash (MuiFetch.fetchReports (Resolved R None)
                       (Resolved I None) (Resolved P None) w1))
      = reports (dash (MuiFetch.fetchReports (Resolved R None)
                         (Resolved I None) (Resolved P None) w2))
      ∧ reports (dash (PlainFetch.fetchReports (Resolved R None)
                         (Resolved I None) w1))
        = reports (dash (PlainFetch.fetchReports (Resolved R None)
                           (Resolved I None) w2)))
  ∧ (∀ w : World,
        let w' := MuiFetch.fetchReports (Resolved R None) (Resolved I None)
                    (Resolved P None) w in
        reports (dash w') = Mui.aggregate R I P
        ∧ statusFilter (dash w') = statusFilter (dash w)
        ∧ alerts w' = alerts w
        ∧ console w' = console w
        ∧ reads w' = reads w
        ∧ requests w'
          = requests w ++ [SelectReports; SelectInteractions; SelectProfiles])
  ∧ (∀ w : World,
        let w' := PlainFetch.fetchReports (Resolved R None)
                    (Resolved I None) w in
        reports (dash w') = Plain.aggregate R I
        ∧ statusFilter (dash w') = statusFilter (dash w)
        ∧ alerts w' = alerts w
        ∧ console w' = console w
        ∧ reads w' = reads w
        ∧ requests w' = requests w ++ [SelectReports; SelectInteractions]).
Proof.
  split; [|split].
  - intros w1 w2. by rewrite !MuiFetch_ok, !PlainFetch_ok.
  - intros w. cbn zeta. rewrite MuiFetch_ok. cbn.
    repeat split. by rewrite <- !app_assoc.
  - intros w. cbn zeta. rewrite PlainFetch_ok. cbn.
    repeat split. by rewrite <- !app_assoc.
Qed.

(** ** The model at work on the sample data *)

Example sample_rows_votes :
  votes_of <$> sample_rows = [("a", 2, 1); ("b", 0, 0)].
Proof. reflexivity. Qed.

Example sample_rows_names :
  ReportWithVotes.reporter_name <$> sample_rows
  = [Some "Asha Rao"; Some "Anonymous"].
Proof. vm_compute. reflexivity. Qed.

Example sample_filter_in_progress :
  ReportWithVotes.id <$> filteredReports (only in_progress) sample_rows
  = ["b"].
Proof. reflexivity. Qed.

Example sample_update_resolved :
  let w' := updateReportStatus (UpdateResolved None) "a" resolved
              sample_world in
  (λ row, (ReportWithVotes.id row, ReportWithVotes.status row,
           ReportWithVotes.updated_at row)) <$> reports (dash w')
  = [("a", resolved, "2024-02-01T10:00:01.000Z");
     ("b", in_progress, "2024-01-04T00:00:00.000Z")]
  ∧ requests w'
    = [UpdateReport "a" resolved "2024-02-01T10:00:00.000Z"]
  ∧ alerts w' = [].
Proof. vm_compute. repeat split. Qed.

Example sample_update_self_transition :
  ReportWithVotes.status
    <$> reports (dash (updateReportStatus (UpdateResolved None) "b"
                         in_progress sample_world))
  = [reported; in_progress].
Proof. vm_compute. reflexivity. Qed.

Example sample_update_failed :
  let w' := updateReportStatus (UpdateResolved (Some network_down)) "a"
              resolved sample_world in
  reports (dash w') = sample_rows
  ∧ alerts w' = ["Failed to update status"].
Proof. vm_compute. repeat split. Qed.

Example sample_fetch_failed :
  let w' := MuiFetch.fetchReports (Resolved (Some [report_a]) None)
              (Rejected network_down) (Resolved None None) sample_world in
  dash w'
  = {| reports := sample_rows; loading := false;
       error := Some "Failed to fetch"; statusFilter := all |}
  ∧ requests w' = [SelectReports; SelectInteractions].
Proof. vm_compute. repeat split. Qed.

(** * Further properties of the aggregator *)

Section MoreTally.
Implicit Types (I : list Interaction.t) (r : Report.t) (R : list Report.t).

(** Every interaction is an upvote or a downvote. *)
Lemma tally_split I : tally upvote I + tally downvote I = length I.
Proof.
  unfold tally. induction I as [|i I IH]; [done|].
  rewrite !filter_cons.
  destruct (Interaction.interaction_type i) eqn:E;
    repeat case_decide; try done; cbn; lia.
Qed.

Lemma tally_Permutation ty I I' r :
  I ≡ₚ I' →
  tally ty (reportInteractions (Some I) r)
  = tally ty (reportInteractions (Some I') r).
Proof. intros HP. unfold tally, reportInteractions. cbn. by rewrite HP. Qed.

(** How often an id occurs among the reports. *)
Lemma count_id_NoDup R (rid : string) :
  NoDup (Report.id <$> R) →
  sum_list ((λ r, if decide (rid = Report.id r) then 1 else 0) <$> R)
  = if decide (rid ∈ Report.id <$> R) then 1 else 0.
Proof.
  induction R as [|r R IH]; intros Hnd.
  - cbn. by rewrite decide_False by apply not_elem_of_nil.
  - rewrite fmap_cons in Hnd. apply NoDup_cons in Hnd as [Hr Hnd].
    cbn [fmap list_fmap sum_list]. rewrite (IH Hnd).
    destruct (decide (rid = Report.id r)) as [->|Hne].
    + rewrite (decide_False (P := Report.id r ∈ Report.id <$> R)) by done.
      rewrite decide_True by apply list_elem_of_here. done.
    + destruct (decide (rid ∈ Report.id <$> R)) as [Hin|Hnin].
      * rewrite decide_True by by apply list_elem_of_further. done.
      * rewrite decide_False; [done|].
        intros [?|?]%elem_of_cons; done.
Qed.

(** The interactions of the reports, taken report by report, with one more
    interaction in front. *)
Lemma sum_matching_cons R i I :
  sum_list ((λ r, length (filter (λ j, Interaction.report_id j = Report.id r)
                            (i :: I))) <$> R)
  = sum_list ((λ r, if decide (Interaction.report_id i = Report.id r)
                    then 1 else 0) <$> R)
    + sum_list ((λ r, length (filter (λ j, Interaction.report_id j
                                           = Report.id r) I)) <$> R).
Proof.
  induction R as [|r R IH]; [done|].
  cbn [fmap list_fmap sum_list]. rewrite IH, filter_cons.
  case_decide; cbn; lia.
Qed.

Lemma sum_matching_bound R I :
  NoDup (Report.id <$> R) →
  sum_list ((λ r, length (filter (λ j, Interaction.report_id j = Report.id r)
                            I)) <$> R)
  = length (filter (λ j, Interaction.report_id j ∈ Report.id <$> R) I).
Proof.
  intros Hnd. induction I as [|i I IH].
  - cbn. induction R as [|r R IHR]; [done|].
    rewrite fmap_cons in Hnd. apply NoDup_cons in Hnd as [_ Hnd].
    cbn. by rewrite IHR.
  - rewrite sum_matching_cons, IH, count_id_NoDup, filter_cons by done.
    case_decide; cbn; lia.
Qed.
End MoreTally.

Lemma votes_shown_spread r up down name :
  votes_shown (ReportWithVotes.spread r up down name) = up + down.
Proof. done. Qed.

Lemma Mui_votes_shown (R : list Report.t) (I : list Interaction.t) P :
  votes_shown <$> Mui.aggregate (Some R) (Some I) P
  = (λ r, length (filter (λ i, Interaction.report_id i = Report.id r) I))
    <$> R.
Proof.
  unfold Mui.aggregate. cbn [or_empty]. rewrite <- list_fmap_compose.
  apply list_fmap_ext. intros _ r _. unfold compose.
  rewrite votes_shown_spread. apply tally_split.
Qed.

Lemma Plain_votes_shown (R : list Report.t) (I : list Interaction.t) :
  votes_shown <$> Plain.aggregate (Some R) (Some I)
  = (λ r, length (filter (λ i, Interaction.report_id i = Report.id r) I))
    <$> R.
Proof.
  unfold Plain.aggregate. cbn [or_empty]. rewrite <- list_fmap_compose.
  apply list_fmap_ext. intros _ r _. unfold compose.
  rewrite votes_shown_spread. apply tally_split.
Qed.

(** X1: the two counters of a row add up to the number of interactions that
    refer to its report: no interaction of a report is left uncounted or
    counted twice. *)
Theorem votes_add_up (R : list Report.t) (I : list Interaction.t)
    (P : option (list Profile.t)) :
  votes_shown <$> Mui.aggregate (Some R) (Some I) P
  = (λ r, length (filter (λ i, Interaction.report_id i = Report.id r) I))
    <$> R
  ∧ votes_shown <$> Plain.aggregate (Some R) (Some I)
    = (λ r, length (filter (λ i, Interaction.report_id i = Report.id r) I))
      <$> R.
Proof. split; [apply Mui_votes_shown|apply Plain_votes_shown]. Qed.

(** X2: the order in which the interactions were fetched does not matter:
    a permutation of them gives the same rows. *)
Theorem interactions_order_irrelevant (R : option (list Report.t))
    (I I' : list Interaction.t) (P : option (list Profile.t)) :
  I ≡ₚ I' →
  Mui.aggregate R (Some I) P = Mui.aggregate R (Some I') P
  ∧ Plain.aggregate R (Some I) = Plain.aggregate R (Some I').
Proof.
  intros HP. unfold Mui.aggregate, Plain.aggregate.
  split; apply list_fmap_ext; intros _ r _; cbn zeta;
    by rewrite !(tally_Permutation _ I I' r HP).
Qed.

Lemma interactions_order_irrelevant_witness :
  Mui.aggregate (Some [report_a]) (Some votes_a) (Some [profile_u1])
  = Mui.aggregate (Some [report_a]) (Some (reverse votes_a))
      (Some [profile_u1])
  ∧ Plain.aggregate (Some [report_a]) (Some votes_a)
    = Plain.aggregate (Some [report_a]) (Some (reverse votes_a)).
Proof.
  apply (interactions_order_irrelevant (Some [report_a]) votes_a
           (reverse votes_a) (Some [profile_u1])).
  symmetry. apply reverse_Permutation.
Defined.

(** X3: the votes of all rows together never exceed the number of
    interactions when no two reports share an id: they are exactly the
    interactions that refer to one of the reports; an interaction of a
    report that was not fetched is dropped. *)
Theorem total_votes_bound (R : list Report.t) (I : list Interaction.t)
    (P : option (list Profile.t)) :
  NoDup (Report.id <$> R) →
  sum_list (votes_shown <$> Mui.aggregate (Some R) (Some I) P)
  = length (filter (λ i, Interaction.report_id i ∈ Report.id <$> R) I)
  ∧ sum_list (votes_shown <$> Plain.aggregate (Some R) (Some I))
    = length (filter (λ i, Interaction.report_id i ∈ Report.id <$> R) I)
  ∧ sum_list (votes_shown <$> Mui.aggregate (Some R) (Some I) P) ≤ length I.
Proof.
  intros Hnd. rewrite Mui_votes_shown, Plain_votes_shown.
  rewrite sum_matching_bound by done.
  repeat split. apply length_filter.
Qed.

Lemma total_votes_bound_witness :
  sum_list (votes_shown
              <$> Mui.aggregate (Some [report_a; report_b])
                    (Some (vote "9" "zz" upvote :: votes_a)) None)
  = 3.
Proof.
  etrans.
  - apply (total_votes_bound [report_a; report_b]
             (vote "9" "zz" upvote :: votes_a) None).
    apply (bool_decide_unpack _). vm_compute. exact I.
  - vm_compute. reflexivity.
Defined.

Section MoreProfiles.
Implicit Types (ps : list Profile.t) (p : Profile.t).

(** What is found under a key is a profile of the collection, with that id. *)
Lemma profilesMap_found ps uid p :
  profilesMap (Some ps) !! uid = Some p → p ∈ ps ∧ Profile.id p = uid.
Proof.
  induction ps as [|q ps IH] using rev_ind.
  - unfold profilesMap. cbn. by rewrite lookup_empty.
  - rewrite profilesMap_snoc.
    destruct (decide (Profile.id q = uid)) as [<-|Hne].
    + rewrite lookup_insert_eq. intros [= <-]. split; [|done].
      apply elem_of_app. right. apply list_elem_of_here.
    + rewrite lookup_insert_ne by done. intros [Hin Hid]%IH.
      split; [|done]. apply elem_of_app. by left.
Qed.

(** With one profile per id, every profile is found under its id. *)
Lemma profilesMap_NoDup ps p :
  NoDup (Profile.id <$> ps) → p ∈ ps →
  profilesMap (Some ps) !! Profile.id p = Some p.
Proof.
  intros Hnd (before & after & ->)%list_elem_of_split.
  apply profilesMap_last.
  rewrite fmap_app, fmap_cons in Hnd.
  apply NoDup_app in Hnd as (_ & _ & Hnd).
  apply NoDup_cons in Hnd as [Hnot _].
  apply Forall_forall. intros q Hq Heq. apply Hnot. rewrite <- Heq.
  by apply list_elem_of_fmap_2.
Qed.

Lemma profilesMap_Permutation ps ps' :
  NoDup (Profile.id <$> ps) → ps ≡ₚ ps' →
  profilesMap (Some ps) = profilesMap (Some ps').
Proof.
  intros Hnd HP.
  assert (Hnd' : NoDup (Profile.id <$> ps')) by by rewrite <- HP.
  apply map_eq. intros uid.
  destruct (profilesMap (Some ps) !! uid) as [p|] eqn:E.
  - apply profilesMap_found in E as [Hin <-]. symmetry.
    apply profilesMap_NoDup; [done|]. by rewrite <- HP.
  - destruct (profilesMap (Some ps') !! uid) as [p'|] eqn:E'; [|done].
    apply profilesMap_found in E' as [Hin <-].
    rewrite profilesMap_NoDup in E; [done..|]. by rewrite HP.
Qed.

(** The name of a report is never empty, and it is a fixed word or a field
    of a profile under the map. *)
Lemma resolve_reporter_name_origin (pm : gmap string Profile.t) r :
  let n := resolve_reporter_name pm r in
  n ≠ ""
  ∧ (n = "Anonymous" ∨ n = "Unknown"
     ∨ ∃ p, pm !! Report.user_id r = Some p
            ∧ (Profile.full_name p = Some n ∨ Profile.email p = n)).
Proof.
  cbn zeta. unfold resolve_reporter_name.
  destruct (Report.is_anonymous r); [split; [done|by left]|].
  destruct (pm !! Report.user_id r) as [p|] eqn:E; cbn;
    [|split; [done|right; by left]].
  unfold js_or, truthy.
  destruct (Profile.full_name p) as [n|] eqn:En.
  - destruct (String.eqb_spec n "") as [->|Hn]; cbn.
    + destruct (String.eqb_spec (Profile.email p) "") as [He|He].
      * split; [done|right; by left].
      * split; [done|]. right; right. exists p. split; [done|by right].
    + destruct (String.eqb_spec n "") as [?|_]; [done|].
      split; [done|]. right; right. exists p. split; [done|by left].
  - cbn. destruct (String.eqb_spec (Profile.email p) "") as [He|He].
    + split; [done|right; by left].
    + split; [done|]. right; right. exists p. split; [done|by right].
Qed.
End MoreProfiles.

(** X4: with one profile per id, the order in which the profiles were
    fetched does not matter: a permutation of them gives the same rows. *)
Theorem profiles_order_irrelevant (R : option (list Report.t))
    (I : option (list Interaction.t)) (ps ps' : list Profile.t) :
  NoDup (Profile.id <$> ps) →
  ps ≡ₚ ps' →
  Mui.aggregate R I (Some ps) = Mui.aggregate R I (Some ps').
Proof.
  intros Hnd HP. unfold Mui.aggregate.
  by rewrite (profilesMap_Permutation ps ps').
Qed.

Lemma profiles_order_irrelevant_witness :
  Mui.aggregate (Some [report_a; report_b]) (Some votes_a)
    (Some [profile_u1; profile_u2])
  = Mui.aggregate (Some [report_a; report_b]) (Some votes_a)
      (Some [profile_u2; profile_u1]).
Proof.
  apply (profiles_order_irrelevant (Some [report_a; report_b])
           (Some votes_a) [profile_u1; profile_u2]
           [profile_u2; profile_u1]).
  - apply (bool_decide_unpack _). vm_compute. exact I.
  - apply Permutation_swap.
Defined.

(** X5: the reporter cell is never blank: every row of the profiles variant
    has a reporter name, which is not the empty string and is "Anonymous",
    "Unknown", or the full name or the email of a fetched profile whose id
    is the report's [user_id]. *)
Theorem reporter_name_never_blank (R : option (list Report.t))
    (I : option (list Interaction.t)) (P : option (list Profile.t)) :
  Forall (λ row,
            ∃ n, ReportWithVotes.reporter_name row = Some n
                 ∧ n ≠ ""
                 ∧ (n = "Anonymous" ∨ n = "Unknown"
                    ∨ ∃ p, p ∈ or_empty P
                           ∧ Profile.id p = ReportWithVotes.user_id row
                           ∧ (Profile.full_name p = Some n
                              ∨ Profile.email p = n)))
    (Mui.aggregate R I P).
Proof.
  unfold Mui.aggregate. apply Forall_fmap, Forall_true. intros r.
  eexists. split; [reflexivity|].
  destruct (resolve_reporter_name_origin (profilesMap P) r)
    as [Hne [Ha | [Hu | (p & Hp & Hf)]]].
  - split; [done|by left].
  - split; [done|right; by left].
  - split; [done|]. right; right. exists p.
    destruct P as [ps|]; [|by rewrite profilesMap_null in Hp].
    apply profilesMap_found in Hp as [Hin Hid]. by repeat split.
Qed.

(** X6: a null answer is an empty one: without reports there are no rows;
    null interactions give the rows of no interactions, all with no votes;
    null profiles give the rows of no profiles. *)
Theorem null_data_is_empty (R : option (list Report.t))
    (I : option (list Interaction.t)) (P : option (list Profile.t)) :
  Mui.aggregate None I P = []
  ∧ Plain.aggregate None I = []
  ∧ Mui.aggregate R None P = Mui.aggregate R (Some []) P
  ∧ Plain.aggregate R None = Plain.aggregate R (Some [])
  ∧ Mui.aggregate R I None = Mui.aggregate R I (Some [])
  ∧ Forall (λ row, votes_shown row = 0) (Mui.aggregate R None P)
  ∧ Forall (λ row, votes_shown row = 0) (Plain.aggregate R None).
Proof.
  repeat split; try reflexivity;
    apply Forall_fmap, Forall_true; by intros r.
Qed.

(** X7: the two variants agree: the rows of the plain variant are the rows
    of the profiles variant without their reporter name. *)
Theorem plain_is_mui_without_name (R : option (list Report.t))
    (I : option (list Interaction.t)) (P : option (list Profile.t)) :
  Plain.aggregate R I = without_name <$> Mui.aggregate R I P.
Proof.
  unfold Plain.aggregate, Mui.aggregate. rewrite <- list_fmap_compose.
  by apply list_fmap_ext.
Qed.

(** * Further properties of [fetchReports] *)

(** Runs the statements of a body whose replies are known. *)
Ltac run_monad :=
  unfold MuiFetch.fetchReports, PlainFetch.fetchReports, try_catch, select,
    update, effect, throw, mbind, M_bind, mret, M_ret;
  cbn.

Section MoreFetch.
Implicit Types (w : World) (e : JsError).

Lemma reply_error_Some {A} (r : Reply A) e :
  reply_error r = Some e →
  r = Rejected e ∨ ∃ d, r = Resolved d (Some e).
Proof. destruct r as [e'|d [e'|]]; intros [= <-]; eauto. Qed.

Lemma reply_error_None {A} (r : Reply A) :
  reply_error r = None → r = Resolved (reply_data r) None.
Proof. by destruct r as [e'|d [e'|]]. Qed.

Lemma MuiFetch_failed_1 r1 r2 r3 e w :
  reply_error r1 = Some e →
  fetch_failed_with e [SelectReports] w (MuiFetch.fetchReports r1 r2 r3 w).
Proof. by intros [->|[d ->]]%reply_error_Some. Qed.

Lemma MuiFetch_failed_2 r1 r2 r3 e w :
  reply_error r1 = None → reply_error r2 = Some e →
  fetch_failed_with e [SelectReports; SelectInteractions] w
    (MuiFetch.fetchReports r1 r2 r3 w).
Proof.
  intros ->%reply_error_None [->|[d ->]]%reply_error_Some;
    repeat split; run_monad; by rewrite <- ?app_assoc.
Qed.

Lemma MuiFetch_failed_3 r1 r2 r3 e w :
  reply_error r1 = None → reply_error r2 = None → reply_error r3 = Some e →
  fetch_failed_with e [SelectReports; SelectInteractions; SelectProfiles] w
    (MuiFetch.fetchReports r1 r2 r3 w).
Proof.
  intros ->%reply_error_None ->%reply_error_None [->|[d ->]]%reply_error_Some;
    repeat split; run_monad; by rewrite <- ?app_assoc.
Qed.

Lemma PlainFetch_failed_1 r1 r2 e w :
  reply_error r1 = Some e →
  fetch_failed_with e [SelectReports] w (PlainFetch.fetchReports r1 r2 w).
Proof. by intros [->|[d ->]]%reply_error_Some. Qed.

Lemma PlainFetch_failed_2 r1 r2 e w :
  reply_error r1 = None → reply_error r2 = Some e →
  fetch_failed_with e [SelectReports; SelectInteractions] w
    (PlainFetch.fetchReports r1 r2 w).
Proof.
  intros ->%reply_error_None [->|[d ->]]%reply_error_Some;
    repeat split; run_monad; by rewrite <- ?app_assoc.
Qed.

Lemma render_failed e sent w w' :
  fetch_failed_with e sent w w' →
  render (dash w')
  = if String.eqb (shown_message e) ""
    then table_view (statusFilter (dash w)) (reports (dash w))
    else ErrorView (shown_message e).
Proof.
  intros (Hr & Hf & He & Hl & _). unfold render.
  by rewrite Hl, He, Hr, Hf.
Qed.
End MoreFetch.

(** X8: when a query fails (the promise rejects, or resolves with an
    error), the rows on screen and the filter stay as they were, the error
    cell gets the message of the error (or "An error occurred" when the
    value is no [Error]), the spinner is off, the error is logged once, and
    the queries after the failed one are not sent. *)
Theorem fetch_failure_keeps_rows (w : World) (e : JsError) :
  (∀ r1 r2 r3,
      reply_error r1 = Some e →
      fetch_failed_with e [SelectReports] w
        (MuiFetch.fetchReports r1 r2 r3 w))
  ∧ (∀ r1 r2 r3,
        reply_error r1 = None → reply_error r2 = Some e →
        fetch_failed_with e [SelectReports; SelectInteractions] w
          (MuiFetch.fetchReports r1 r2 r3 w))
  ∧ (∀ r1 r2 r3,
        reply_error r1 = None → reply_error r2 = None →
        reply_error r3 = Some e →
        fetch_failed_with e
          [SelectReports; SelectInteractions; SelectProfiles] w
          (MuiFetch.fetchReports r1 r2 r3 w))
  ∧ (∀ r1 r2,
        reply_error r1 = Some e →
        fetch_failed_with e [SelectReports] w
          (PlainFetch.fetchReports r1 r2 w))
  ∧ (∀ r1 r2,
        reply_error r1 = None → reply_error r2 = Some e →
        fetch_failed_with e [SelectReports; SelectInteractions] w
          (PlainFetch.fetchReports r1 r2 w)).
Proof.
  split_and!; intros.
  - by apply MuiFetch_failed_1.
  - by apply MuiFetch_failed_2.
  - by apply MuiFetch_failed_3.
  - by apply PlainFetch_failed_1.
  - by apply PlainFetch_failed_2.
Qed.

Lemma MuiFetch_succeeded r1 r2 r3 (w : World) :
  reply_error r1 = None → reply_error r2 = None → reply_error r3 = None →
  fetch_succeeded_with
    (Mui.aggregate (reply_data r1) (reply_data r2) (reply_data r3))
    [SelectReports; SelectInteractions; SelectProfiles] w
    (MuiFetch.fetchReports r1 r2 r3 w).
Proof.
  intros ->%reply_error_None ->%reply_error_None ->%reply_error_None.
  rewrite MuiFetch_ok. repeat split; cbn. by rewrite <- !app_assoc.
Qed.

Lemma PlainFetch_succeeded r1 r2 (w : World) :
  reply_error r1 = None → reply_error r2 = None →
  fetch_succeeded_with (Plain.aggregate (reply_data r1) (reply_data r2))
    [SelectReports; SelectInteractions] w
    (PlainFetch.fetchReports r1 r2 w).
Proof.
  intros ->%reply_error_None ->%reply_error_None.
  rewrite PlainFetch_ok. repeat split; cbn. by rewrite <- !app_assoc.
Qed.

Lemma render_succeeded rows sent (w w' : World) :
  fetch_succeeded_with rows sent w w' →
  render (dash w') = table_view (statusFilter (dash w)) rows.
Proof.
  intros (Hr & Hf & He & Hl & _). unfold render.
  by rewrite Hl, He, Hr, Hf.
Qed.

(** X9: a fetch has two outcomes and no other.  Either no reply has an
    error, and the rows are the aggregate of the three answers, the error is
    cleared and all three selects were sent; or the rows are kept, the error
    of the first failed reply is shown, and only the selects up to the
    failed one were sent.  In both the spinner is off at the end, the filter
    is the one before, and nothing but selects is sent: no update, no alert,
    no clock reading. *)
Theorem fetch_outcomes (r1 : Reply Report.t) (r2 : Reply Interaction.t)
    (r3 : Reply Profile.t) (w : World) :
  (first_error [reply_error r1; reply_error r2; reply_error r3] = None
   ∧ fetch_succeeded_with
       (Mui.aggregate (reply_data r1) (reply_data r2) (reply_data r3))
       [SelectReports; SelectInteractions; SelectProfiles] w
       (MuiFetch.fetchReports r1 r2 r3 w))
  ∨ (∃ e sent,
        first_error [reply_error r1; reply_error r2; reply_error r3] = Some e
        ∧ sent `prefix_of` [SelectReports; SelectInteractions; SelectProfiles]
        ∧ sent ≠ []
        ∧ fetch_failed_with e sent w (MuiFetch.fetchReports r1 r2 r3 w)).
Proof.
  destruct (reply_error r1) as [e|] eqn:E1.
  { right. exists e, [SelectReports]. split_and!; try done.
    - by exists [SelectInteractions; SelectProfiles].
    - by apply MuiFetch_failed_1. }
  destruct (reply_error r2) as [e|] eqn:E2.
  { right. exists e, [SelectReports; SelectInteractions].
    split_and!; try done.
    - by exists [SelectProfiles].
    - by apply MuiFetch_failed_2. }
  destruct (reply_error r3) as [e|] eqn:E3.
  { right. exists e, [SelectReports; SelectInteractions; SelectProfiles].
    split_and!; try done. by apply MuiFetch_failed_3. }
  left. split; [done|]. by apply MuiFetch_succeeded.
Qed.

(** X10: the same for the variant without profiles, which sends two
    selects. *)
Theorem plain_fetch_outcomes (r1 : Reply Report.t)
    (r2 : Reply Interaction.t) (w : World) :
  (first_error [reply_error r1; reply_error r2] = None
   ∧ fetch_succeeded_with
       (Plain.aggregate (reply_data r1) (reply_data r2))
       [SelectReports; SelectInteractions] w
       (PlainFetch.fetchReports r1 r2 w))
  ∨ (∃ e sent,
        first_error [reply_error r1; reply_error r2] = Some e
        ∧ sent `prefix_of` [SelectReports; SelectInteractions]
        ∧ sent ≠ []
        ∧ fetch_failed_with e sent w (PlainFetch.fetchReports r1 r2 w)).
Proof.
  destruct (reply_error r1) as [e|] eqn:E1.
  { right. exists e, [SelectReports]. split_and!; try done.
    - by exists [SelectInteractions].
    - by apply PlainFetch_failed_1. }
  destruct (reply_error r2) as [e|] eqn:E2.
  { right. exists e, [SelectReports; SelectInteractions].
    split_and!; try done. by apply PlainFetch_failed_2. }
  left. split; [done|]. by apply PlainFetch_succeeded.
Qed.

(** X11: what is on screen after a fetch.  Never the spinner.  When no
    reply has an error: the table of the new rows under the filter in
    place.  When a reply has an error: the error view with its message,
    unless the message is the empty string (an [Error] without message):
    then the [if (error)] test fails and the table of the old rows is shown
    as if nothing had happened. *)
Theorem view_after_fetch (r1 : Reply Report.t) (r2 : Reply Interaction.t)
    (r3 : Reply Profile.t) (w : World) :
  render (dash (MuiFetch.fetchReports r1 r2 r3 w))
  = match first_error [reply_error r1; reply_error r2; reply_error r3] with
    | None =>
        table_view (statusFilter (dash w))
          (Mui.aggregate (reply_data r1) (reply_data r2) (reply_data r3))
    | Some e =>
        if String.eqb (shown_message e) ""
        then table_view (statusFilter (dash w)) (reports (dash w))
        else ErrorView (shown_message e)
    end.
Proof.
  destruct (reply_error r1) as [e|] eqn:E1.
  { eapply render_failed. by apply MuiFetch_failed_1. }
  destruct (reply_error r2) as [e|] eqn:E2.
  { eapply render_failed. by apply MuiFetch_failed_2. }
  destruct (reply_error r3) as [e|] eqn:E3.
  { eapply render_failed. by apply MuiFetch_failed_3. }
  eapply render_succeeded. by apply MuiFetch_succeeded.
Qed.

(** * Further properties of [updateReportStatus] *)

Section MoreMutator.
Implicit Types (w : World) (rows : list ReportWithVotes.t)
  (row : ReportWithVotes.t).

Lemma advance_inj n m w : advance n w = advance m w → n = m.
Proof. intros H. apply (f_equal reads) in H. cbn in H. lia. Qed.

(** The callback reads the clock once for a row with the id and not at all
    for another. *)
Lemma mapM_mirror_one_reads reportId s rows :
  ∀ w, (mapM (mirror_one reportId s) rows w).1
       = advance (length (rows_with_id reportId rows)) w.
Proof.
  induction rows as [|row rows IH]; intros w.
  - cbn. by rewrite advance_0.
  - destruct (mirror_one_spec reportId s row w) as (n1 & row' & E1 & _).
    assert (n1 = if decide (ReportWithVotes.id row = reportId)
                 then 1 else 0) as Hn1.
    { revert E1. unfold mirror_one. case_decide.
      - unfold mbind, M_bind. rewrite now_spec. cbn.
        intros Heq. apply (f_equal (λ x, reads x.1)) in Heq.
        cbn in Heq. lia.
      - intros Heq. apply (f_equal (λ x, reads x.1)) in Heq.
        cbn in Heq. lia. }
    cbn [mapM]. unfold mbind at 1, M_bind at 1. rewrite E1.
    unfold mbind at 1, M_bind at 1.
    destruct (mapM_mirror_one_spec reportId s rows (advance n1 w))
      as (n2 & rows' & E2 & _).
    pose proof (IH (advance n1 w)) as H2. rewrite E2 in H2.
    cbn [fst] in H2. apply advance_inj in H2.
    rewrite E2. cbn [fst mret M_ret]. rewrite advance_advance.
    unfold rows_with_id in *. rewrite filter_cons. subst n1 n2.
    case_decide; cbn [length]; f_equal; lia.
Qed.

(** Every run of the updater reads the clock as the callback does. *)
Lemma rerun_mirror_reads reportId s rows k :
  ∀ w, (rerun k (mapM (mirror_one reportId s) rows) w).1
       = advance (S k * length (rows_with_id reportId rows)) w.
Proof.
  induction k as [|k IH]; intros w.
  - cbn [rerun]. rewrite mapM_mirror_one_reads. f_equal. lia.
  - destruct (mapM_mirror_one_spec reportId s rows w) as (n1 & r1 & E1 & _).
    pose proof (mapM_mirror_one_reads reportId s rows w) as H1.
    rewrite E1 in H1. cbn [fst] in H1. apply advance_inj in H1. subst n1.
    cbn [rerun]. unfold mbind at 1, M_bind at 1. rewrite E1, IH.
    rewrite advance_advance. f_equal; lia.
Qed.

Lemma mirrored_status reportId s clock (a b : nat) row row' :
  mirrored reportId s clock a b row row' →
  ReportWithVotes.id row' = ReportWithVotes.id row
  ∧ ReportWithVotes.status row'
    = if decide (ReportWithVotes.id row = reportId) then s
      else ReportWithVotes.status row.
Proof.
  intros [Hne Heq]. case_decide as Hid.
  - destruct (Heq Hid) as (Hs & _ & Hsame). split; [apply Hsame|done].
  - by rewrite (Hne Hid).
Qed.

(** The world a confirmed update leaves, with the number of clock readings
    made explicit. *)
Lemma updateReportStatus_ok_exact reportId s w :
  ∃ rows',
    updateReportStatus (UpdateResolved None) reportId s w
    = setReports (λ _, rows')
        (advance (S (strict_reruns w)
                  * length (rows_with_id reportId (reports (dash w))))
           (send (UpdateReport reportId s (time w (reads w)))
              (advance 1 w)))
    ∧ Forall2 (λ row row',
                 mirrored reportId s (time w) (S (reads w))
                   (S (reads w)
                    + S (strict_reruns w)
                      * length (rows_with_id reportId (reports (dash w))))
                   row row')
        (reports (dash w)) rows'.
Proof.
  set (w1 := send (UpdateReport reportId s (time w (reads w)))
               (advance 1 w)).
  destruct (rerun_mirror_spec reportId s (reports (dash w1))
              (strict_reruns w1) w1) as (n & rows' & E & Hm).
  pose proof (rerun_mirror_reads reportId s (reports (dash w1))
                (strict_reruns w1) w1) as Hr.
  rewrite E in Hr. cbn [fst] in Hr. apply advance_inj in Hr. subst n.
  exists rows'. split.
  - unfold updateReportStatus, try_catch.
    unfold mbind at 1, M_bind at 1. rewrite now_spec.
    unfold update, mbind at 1, M_bind at 1.
    unfold mbind at 1, M_bind at 1. cbn [effect mret M_ret].
    fold w1. unfold mirror. by rewrite E.
  - replace (S (reads w)) with (reads w1) by (cbn; lia). exact Hm.
Qed.

(** The ids and the statuses after a confirmed update. *)
Lemma updateReportStatus_ok_status reportId s w :
  let w' := updateReportStatus (UpdateResolved None) reportId s w in
  ReportWithVotes.id <$> reports (dash w')
  = ReportWithVotes.id <$> reports (dash w)
  ∧ ReportWithVotes.status <$> reports (dash w')
    = (λ row, if decide (ReportWithVotes.id row = reportId) then s
              else ReportWithVotes.status row) <$> reports (dash w).
Proof.
  destruct (updateReportStatus_ok reportId s w) as (n & rows' & -> & Hm).
  cbn. induction Hm as [|row row' rows rows' H _ [IH1 IH2]]; [done|].
  apply mirrored_status in H as [Hid Hs].
  rewrite !fmap_cons. by rewrite Hid, Hs, IH1, IH2.
Qed.

Lemma mirrored_unknown_id reportId s clock (a b : nat) rows rows' :
  Forall (λ row, ReportWithVotes.id row ≠ reportId) rows →
  Forall2 (mirrored reportId s clock a b) rows rows' → rows' = rows.
Proof.
  intros Hall Hm. induction Hm as [|row row' rows rows' [Hne _] _ IH];
    [done|].
  apply Forall_cons in Hall as [Hid Hall]. by rewrite (Hne Hid), IH.
Qed.
Lemma rows_with_id_unknown reportId rows :
  Forall (λ row, ReportWithVotes.id row ≠ reportId) rows →
  rows_with_id reportId rows = [].
Proof.
  unfold rows_with_id. induction 1 as [|row rows Hne _ IH]; [done|].
  by rewrite filter_cons, decide_False.
Qed.
End MoreMutator.

(** X12: an id no local row has: the update request is sent all the same
    (there is no look-up before the call), and when it is confirmed the
    local list is the list it was; the clock was read once, for the
    request. *)
Theorem update_of_unknown_id (w : World) (reportId : string)
    (t : ReportStatus) :
  Forall (λ row, ReportWithVotes.id row ≠ reportId) (reports (dash w)) →
  let w' := updateReportStatus (UpdateResolved None) reportId t w in
  reports (dash w') = reports (dash w)
  ∧ requests w' = requests w ++ [UpdateReport reportId t (time w (reads w))]
  ∧ reads w' = S (reads w)
  ∧ alerts w' = alerts w.
Proof.
  intros Hall.
  destruct (updateReportStatus_ok_exact reportId t w) as (rows' & -> & Hm).
  apply mirrored_unknown_id in Hm; [|done]. subst rows'.
  rewrite rows_with_id_unknown by done.
  cbn. split_and!; try done. lia.
Qed.

Lemma update_of_unknown_id_witness :
  let w' := updateReportStatus (UpdateResolved None) "zz" resolved
              sample_world in
  reports (dash w') = reports (dash sample_world)
  ∧ requests w'
    = requests sample_world
      ++ [UpdateReport "zz" resolved (time sample_world (reads sample_world))]
  ∧ reads w' = S (reads sample_world)
  ∧ alerts w' = alerts sample_world.
Proof.
  apply (update_of_unknown_id sample_world "zz" resolved).
  repeat constructor; discriminate.
Defined.

(** X13: what a call costs, whatever the reply: exactly one request, with
    the first clock reading as its timestamp; one clock reading for it and,
    when the update is confirmed, one more for every local row with the id
    in every run of the updater: once per such row in a production build,
    twice under [<StrictMode>] in a development build (so the rows'
    timestamps are later readings than the one sent); when the update
    failed the updater does not run; one alert when it failed and none when
    it went through. *)
Theorem update_effects (reply : UpdateReply) (w : World)
    (reportId : string) (t : ReportStatus) :
  let w' := updateReportStatus reply reportId t w in
  requests w' = requests w ++ [UpdateReport reportId t (time w (reads w))]
  ∧ reads w'
    = match update_error reply with
      | None =>
          S (reads w)
          + S (strict_reruns w)
            * length (rows_with_id reportId (reports (dash w)))
      | Some _ => S (reads w)
      end
  ∧ alerts w'
    = match update_error reply with
      | None => alerts w
      | Some _ => alerts w ++ ["Failed to update status"]
      end.
Proof.
  destruct (update_error reply) as [e|] eqn:E.
  - cbn zeta. rewrite (updateReportStatus_failed reply e).
    + cbn. split_and!; try done. lia.
    + destruct reply as [e'|[e'|]]; cbn in E; simplify_eq; auto.
  - destruct reply as [e'|[e'|]]; cbn in E; simplify_eq.
    destruct (updateReportStatus_ok_exact reportId t w)
      as (rows' & -> & _).
    cbn [requests reads alerts setReports with_dash advance send].
    split_and!; try done. lia.
Qed.

(** X14: two confirmed updates of the same id in a row leave the statuses
    the second alone leaves: the first target is overwritten, for any pair
    of targets, and no row changes its id or its place. *)
Theorem update_twice (w : World) (reportId : string) (s t : ReportStatus) :
  let once := updateReportStatus (UpdateResolved None) reportId t w in
  let twice :=
    updateReportStatus (UpdateResolved None) reportId t
      (updateReportStatus (UpdateResolved None) reportId s w) in
  ReportWithVotes.status <$> reports (dash twice)
  = ReportWithVotes.status <$> reports (dash once)
  ∧ ReportWithVotes.id <$> reports (dash twice)
    = ReportWithVotes.id <$> reports (dash w).
Proof.
  cbn zeta.
  destruct (updateReportStatus_ok_status reportId t
              (updateReportStatus (UpdateResolved None) reportId s w))
    as [Hid2 Hs2].
  destruct (updateReportStatus_ok_status reportId s w) as [Hid1 Hs1].
  destruct (updateReportStatus_ok_status reportId t w) as [Hid0 Hs0].
  split; [|by rewrite Hid2, Hid1].
  rewrite Hs2, Hs0. clear Hs2 Hs0 Hid2 Hid0.
  revert Hid1 Hs1.
  generalize (reports (dash (updateReportStatus (UpdateResolved None)
                               reportId s w))).
  generalize (reports (dash w)).
  intros rows. induction rows as [|row rows IH]; intros [|row1 rows1];
    try done.
  rewrite !fmap_cons. intros [= Hi Hids] [= Hs Hss].
  rewrite Hi. f_equal; [|by apply IH].
  repeat case_decide; congruence.
Qed.

Section UpdateAndFilter.
Implicit Types (rows : list ReportWithVotes.t) (row : ReportWithVotes.t).

Lemma mirrored_other_filter reportId s t clock (a b : nat) rows rows' :
  s ≠ t →
  Forall2 (mirrored reportId t clock a b) rows rows' →
  filter (λ row, ReportWithVotes.status row = s) rows'
  = filter (λ row, ReportWithVotes.id row ≠ reportId)
      (filter (λ row, ReportWithVotes.status row = s) rows).
Proof.
  intros Hst Hm.
  induction Hm as [|row row' rows rows' H _ IH]; [done|].
  pose proof (mirrored_status _ _ _ _ _ _ _ H) as [Hid Hs].
  destruct H as [Hne _]. rewrite !filter_cons.
  destruct (decide (ReportWithVotes.id row = reportId)) as [Heq|Hneq].
  - rewrite decide_False by congruence.
    destruct (decide (ReportWithVotes.status row = s)); [|done].
    rewrite filter_cons, decide_False; [done|]. by intros Hc.
  - rewrite (Hne Hneq).
    destruct (decide (ReportWithVotes.status row = s)); [|done].
    rewrite filter_cons, decide_True by done. by rewrite IH.
Qed.

Lemma mirrored_target reportId t clock (a b : nat) rows rows' :
  Forall2 (mirrored reportId t clock a b) rows rows' →
  Forall (λ row, ReportWithVotes.status row = t)
    (rows_with_id reportId rows').
Proof.
  intros Hm. unfold rows_with_id.
  induction Hm as [|row row' rows rows' H _ IH]; [constructor|].
  pose proof (mirrored_status _ _ _ _ _ _ _ H) as [Hid Hs].
  rewrite filter_cons, Hid.
  destruct (decide (ReportWithVotes.id row = reportId)); [|done].
  by constructor.
Qed.
End UpdateAndFilter.

(** X15: a confirmed update and the filter.  Under the filter of any other
    status, the rows with the updated id leave the view and the others stay,
    in their order; every row with the id now has the target status, so it
    is in the view of the target's filter. *)
Theorem filter_after_update (w : World) (reportId : string)
    (t : ReportStatus) :
  let w' := updateReportStatus (UpdateResolved None) reportId t w in
  (∀ s, s ≠ t →
        filteredReports (only s) (reports (dash w'))
        = filter (λ row, ReportWithVotes.id row ≠ reportId)
            (filteredReports (only s) (reports (dash w))))
  ∧ Forall (λ row, row ∈ filteredReports (only t) (reports (dash w')))
      (rows_with_id reportId (reports (dash w')))
  ∧ length (rows_with_id reportId (reports (dash w')))
    = length (rows_with_id reportId (reports (dash w))).
Proof.
  cbn zeta.
  destruct (updateReportStatus_ok_status reportId t w) as [Hids _].
  destruct (updateReportStatus_ok reportId t w) as (n & rows' & E & Hm).
  rewrite E in Hids |- *. clear E. cbn in *. split_and!.
  - intros s Hst. by eapply mirrored_other_filter.
  - pose proof (mirrored_target _ _ _ _ _ _ _ Hm) as Ht.
    apply Forall_forall. intros row Hrow.
    apply list_elem_of_filter. split.
    + by eapply (proj1 (Forall_forall _ _) Ht).
    + unfold rows_with_id in Hrow. by apply list_elem_of_filter in Hrow as [_ ?].
  - unfold rows_with_id.
    rewrite <- (length_fmap ReportWithVotes.id (filter _ rows')).
    rewrite <- (length_fmap ReportWithVotes.id
                  (filter _ (reports (dash w)))).
    assert (Hf : ∀ l : list ReportWithVotes.t,
               ReportWithVotes.id
                 <$> filter (λ row, ReportWithVotes.id row = reportId) l
               = filter (λ i, i = reportId) (ReportWithVotes.id <$> l)).
    { intros l. induction l as [|x l IH]; [done|].
      rewrite fmap_cons, !filter_cons. case_decide; [|done].
      by rewrite fmap_cons, IH. }
    by rewrite !Hf, Hids.
Qed.

(** X16: no button of the table is a no-op: a rendered button stands for a
    status other than the row's, and once its update is confirmed the row,
    in its place, has that status, and the button is gone from the row. *)
Theorem button_changes_status (w : World) (i : nat)
    (row : ReportWithVotes.t) (t : ReportStatus) :
  reports (dash w) !! i = Some row →
  t ∈ action_buttons row →
  let w' := updateReportStatus (UpdateResolved None)
              (ReportWithVotes.id row) t w in
  ∃ row',
    reports (dash w') !! i = Some row'
    ∧ ReportWithVotes.id row' = ReportWithVotes.id row
    ∧ ReportWithVotes.status row' = t
    ∧ ReportWithVotes.status row' ≠ ReportWithVotes.status row
    ∧ t ∉ action_buttons row'.
Proof.
  intros Hi Ht. cbn zeta.
  destruct (updateReportStatus_ok_status (ReportWithVotes.id row) t w)
    as [Hids Hs].
  apply (f_equal (λ l, l !! i)) in Hids.
  apply (f_equal (λ l, l !! i)) in Hs.
  cbn beta in Hids, Hs.
  rewrite !list_lookup_fmap in Hids. rewrite !list_lookup_fmap in Hs.
  rewrite Hi in Hids. rewrite Hi in Hs. cbn in Hids, Hs.
  rewrite decide_True in Hs by done.
  destruct (reports (dash (updateReportStatus _ _ _ w)) !! i)
    as [row'|]; [|done].
  cbn in Hids, Hs. injection Hids as Hid'. injection Hs as Hs'.
  exists row'. split_and!; try done.
  - rewrite Hs'. by apply action_buttons_spec.
  - rewrite action_buttons_spec. intros Hc. by apply Hc.
Qed.

Lemma button_changes_status_witness :
  ∃ row',
    reports (dash (updateReportStatus (UpdateResolved None) "b" resolved
                     sample_world)) !! 1 = Some row'
    ∧ ReportWithVotes.status row' = resolved.
Proof.
  destruct (button_changes_status sample_world 1
              (ReportWithVotes.spread report_b 0 0 (Some "Anonymous"))
              resolved) as (row' & Hrow & _ & Hs & _).
  - reflexivity.
  - apply action_buttons_spec. discriminate.
  - exists row'. split; [exact Hrow|exact Hs].
Defined.

(** * Further properties of the filter, the cards and the chips *)

Section MoreFilter.
Implicit Types (rows : list ReportWithVotes.t).

Lemma filter_status_partition rows :
  rows ≡ₚ filter (λ r, ReportWithVotes.status r = reported) rows
          ++ filter (λ r, ReportWithVotes.status r = in_progress) rows
          ++ filter (λ r, ReportWithVotes.status r = resolved) rows.
Proof.
  induction rows as [|row rows IH]; [done|].
  rewrite !filter_cons.
  destruct (ReportWithVotes.status row) eqn:E;
    repeat case_decide; try done; cbn.
  - by constructor.
  - rewrite <- Permutation_middle. by constructor.
  - rewrite app_assoc, <- Permutation_middle, <- app_assoc. by constructor.
Qed.

Lemma filter_status_twice (s t : ReportStatus) rows :
  filter (λ r, ReportWithVotes.status r = s)
    (filter (λ r, ReportWithVotes.status r = t) rows)
  = if decide (s = t) then filter (λ r, ReportWithVotes.status r = t) rows
    else [].
Proof.
  induction rows as [|row rows IH]; [by case_decide|].
  rewrite filter_cons.
  destruct (decide (ReportWithVotes.status row = t)) as [Ht|Ht]; [|done].
  rewrite filter_cons, IH.
  destruct (decide (s = t)) as [->|Hst].
  - by rewrite decide_True.
  - rewrite decide_False; [done|]. congruence.
Qed.
End MoreFilter.

(** X17: the three status filters cut the list into three parts: every
    report is in the view of exactly one of them (the three views together
    are a permutation of the list); filtering a view by its own status
    changes nothing, by another status leaves nothing; and "all" after or
    before a status filter is that status filter. *)
Theorem filters_partition (rows : list ReportWithVotes.t) :
  rows ≡ₚ filteredReports (only reported) rows
          ++ filteredReports (only in_progress) rows
          ++ filteredReports (only resolved) rows
  ∧ (∀ s t,
        filteredReports (only s) (filteredReports (only t) rows)
        = if decide (s = t) then filteredReports (only t) rows else [])
  ∧ (∀ f,
        filteredReports all (filteredReports f rows) = filteredReports f rows
        ∧ filteredReports f (filteredReports all rows)
          = filteredReports f rows
        ∧ filteredReports f (filteredReports f rows)
          = filteredReports f rows).
Proof.
  split_and!.
  - apply filter_status_partition.
  - intros s t. apply filter_status_twice.
  - intros [|s]; cbn [filteredReports]; split_and!; try done.
    by rewrite filter_status_twice, decide_True.
Qed.

(** X18: the stat cards of the plain variant: the three status cards add up
    to the total; each card is the number of rows the table shows under the
    filter of its status, and the total the number under "all", whatever
    filter is selected; a confirmed status update leaves the total as it
    is. *)
Theorem stat_cards_add_up (rows : list ReportWithVotes.t) :
  pending (stats rows) + progressing (stats rows) + done_ (stats rows)
  = total (stats rows)
  ∧ pending (stats rows) = length (filteredReports (only reported) rows)
  ∧ progressing (stats rows)
    = length (filteredReports (only in_progress) rows)
  ∧ done_ (stats rows) = length (filteredReports (only resolved) rows)
  ∧ total (stats rows) = length (filteredReports all rows)
  ∧ (∀ w reportId t,
        reports (dash w) = rows →
        total (stats (reports (dash (updateReportStatus
                                       (UpdateResolved None) reportId t w))))
        = total (stats rows)).
Proof.
  split_and!; try done.
  - cbn. rewrite (filter_status_partition rows) at 4.
    rewrite !length_app. lia.
  - intros w reportId t <-. cbn.
    destruct (updateReportStatus_ok_status reportId t w) as [Hids _].
    apply (f_equal length) in Hids. by rewrite !length_fmap in Hids.
Qed.

Section Chips.

Lemma status_string_inj (s t : ReportStatus) :
  status_string s = status_string t → s = t.
Proof. by destruct s, t. Qed.

Lemma eqb_false (a b : string) : a ≠ b → String.eqb a b = false.
Proof. by intros ?%String.eqb_neq. Qed.

Lemma replace_first_absent pat rep (s : string) :
  has_char pat s = false → replace_first pat rep s = s.
Proof.
  induction s as [|c s IH]; [done|]. cbn.
  destruct (Ascii.eqb c pat); [done|]. cbn. intros H. by rewrite IH.
Qed.

Lemma replace_first_app pat rep (a b : string) :
  has_char pat a = false →
  replace_first pat rep (String.append a (String pat b))
  = String.append a (String rep b).
Proof.
  induction a as [|c a IH]; intros H.
  - change (replace_first pat rep (String pat b) = String rep b).
    cbn -[Ascii.eqb]. by rewrite Ascii.eqb_refl.
  - change (replace_first pat rep
              (String c (String.append a (String pat b)))
            = String c (String.append a (String rep b))).
    cbn -[Ascii.eqb] in H |- *.
    destruct (Ascii.eqb c pat); [done|]. cbn in H. by rewrite IH.
Qed.

Lemma replace_first_length pat rep (s : string) :
  String.length (replace_first pat rep s) = String.length s.
Proof.
  induction s as [|c s IH]; [done|]. cbn.
  destruct (Ascii.eqb c pat); cbn; by rewrite ?IH.
Qed.
End Chips.

(** X19: the styles of the status chip, value by value.  [getStatusColor]
    answers "warning", "info" and "success" for reported, in_progress and
    resolved, and [getStatusBadgeClass] "badge-warning", "badge-primary"
    and "badge-success"; so different statuses get different styles.  For
    any other string [getStatusBadgeClass] answers "badge-default", which
    no status gets, while [getStatusColor] answers "info", the colour of
    in_progress. *)
Theorem status_styles :
  (∀ s, getStatusColor (status_string s)
        = match s with
          | reported => "warning"
          | in_progress => "info"
          | resolved => "success"
          end)
  ∧ (∀ s, getStatusBadgeClass (status_string s)
          = match s with
            | reported => "badge-warning"
            | in_progress => "badge-primary"
            | resolved => "badge-success"
            end)
  ∧ (∀ s t, getStatusBadgeClass (status_string s)
            = getStatusBadgeClass (status_string t) → s = t)
  ∧ (∀ s t, getStatusColor (status_string s)
            = getStatusColor (status_string t) → s = t)
  ∧ (∀ s, getStatusBadgeClass (status_string s) ≠ "badge-default")
  ∧ (∀ raw, (∀ s, raw ≠ status_string s) →
            getStatusBadgeClass raw = "badge-default"
            ∧ getStatusColor raw = "info").
Proof.
  split_and!.
  - by intros [].
  - by intros [].
  - by intros [] [].
  - by intros [] [].
  - by intros [].
  - intros raw Hraw. unfold getStatusBadgeClass, getStatusColor.
    rewrite (eqb_false raw "reported") by apply (Hraw reported).
    rewrite (eqb_false raw "in_progress") by apply (Hraw in_progress).
    rewrite (eqb_false raw "resolved") by apply (Hraw resolved).
    done.
Qed.

(** X20: the label of the status chip.  [replace] with a string pattern
    replaces the first underscore only: a string without underscore is its
    own label, in a string with underscores the first one becomes a space
    and what follows it is kept; the length never changes.  The statuses
    have one underscore at most, so no label of a status has an underscore,
    and different statuses have different labels. *)
Theorem status_label_first_underscore :
  (∀ raw, has_char "_" raw = false → status_label raw = raw)
  ∧ (∀ a b, has_char "_" a = false →
            status_label (String.append a (String "_" b))
            = String.append a (String " " b))
  ∧ (∀ raw, String.length (status_label raw) = String.length raw)
  ∧ (∀ s, has_char "_" (status_label (status_string s)) = false)
  ∧ (∀ s t, status_label (status_string s) = status_label (status_string t)
            → s = t).
Proof.
  split_and!.
  - intros raw. apply replace_first_absent.
  - intros a b. apply replace_first_app.
  - intros raw. apply replace_first_length.
  - by intros [].
  - by intros [] [].
Qed.

(** * The aggregation step over the store *)

Section StoreBasics.
Implicit Types (h : gmap positive Cell).

Lemma untouched_subseteq h h' : h ⊆ h' → untouched h h'.
Proof. intros Hsub l c Hl. by eapply lookup_weaken. Qed.

Lemma alloc_spec c h :
  ∃ l, alloc c h = Some (l, <[l := c]> h) ∧ h !! l = None.
Proof.
  exists (fresh (dom h)). split; [done|]. apply not_elem_of_dom, is_fresh.
Qed.

Lemma JS_bind_Some {A B} (c : JS A) (f : A → JS B) h a h' :
  c h = Some (a, h') → (c ≫= f) h = f a h'.
Proof. intros E. unfold mbind, JS_bind. by rewrite E. Qed.

Lemma read_array_spec h l items :
  h !! l = Some (CArray items) → read_array l h = Some (items, h).
Proof. intros Hl. unfold read_array. by rewrite Hl. Qed.

Lemma points_to_mono {A} (inj : A → Cell) h h' items (xs : list A) :
  h ⊆ h' → points_to inj h items xs → points_to inj h' items xs.
Proof.
  intros Hsub Hp. eapply Forall2_impl; [exact Hp|].
  intros l x Hl. cbn beta in *. eapply lookup_weaken; [exact Hl|exact Hsub].
Qed.

Lemma holds_array_mono {A} (inj : A → Cell) h h' data
    (xs : option (list A)) :
  h ⊆ h' → holds_array inj h data xs → holds_array inj h' data xs.
Proof.
  destruct data, xs; cbn; try done. intros Hsub (items & Hl & Hp).
  exists items. split; [by eapply lookup_weaken|by eapply points_to_mono].
Qed.
End StoreBasics.

Section StoreFilter.
Context {A : Type} (inj : A → Cell) (read : positive → JS A).
Context (Hread : ∀ (h : gmap positive Cell) l x,
            h !! l = Some (inj x) → read l h = Some (x, h)).
Context (P : A → Prop) `{!∀ x, Decision (P x)}.
Implicit Types (h : gmap positive Cell).

(** The callbacks of [filter] only read: the store stays as it is, and the
    items kept are the ones of the objects that pass. *)
Lemma filter_items_spec h items xs :
  points_to inj h items xs →
  ∃ kept,
    filter_items read (λ x, bool_decide (P x)) items h = Some (kept, h)
    ∧ points_to inj h kept (filter P xs).
Proof.
  induction 1 as [|l x items xs Hl _ (kept & E & Hk)].
  - exists []. split; [done|constructor].
  - exists (if bool_decide (P x) then l :: kept else kept). split.
    + cbn [filter_items]. unfold mbind, JS_bind.
      by rewrite (Hread _ _ _ Hl), E.
    + rewrite filter_cons. destruct (decide (P x)).
      * rewrite bool_decide_true by done. by constructor.
      * by rewrite bool_decide_false.
Qed.

(** [filter] makes one new array and touches nothing else. *)
Lemma array_filter_spec h arr items xs :
  h !! arr = Some (CArray items) →
  points_to inj h items xs →
  ∃ l kept,
    array_filter read (λ x, bool_decide (P x)) arr h
    = Some (l, <[l := CArray kept]> h)
    ∧ h !! l = None
    ∧ points_to inj h kept (filter P xs).
Proof.
  intros Harr Hp.
  destruct (filter_items_spec h items xs Hp) as (kept & E & Hk).
  destruct (alloc_spec (CArray kept) h) as (l & El & Hl).
  exists l, kept. split_and!; try done.
  unfold array_filter, mbind, JS_bind, read_array. by rewrite Harr, E.
Qed.
End StoreFilter.

Section StoreRows.
Implicit Types (h : gmap positive Cell).

Lemma read_interaction_spec h l (i : Interaction.t) :
  h !! l = Some (CInteraction i) → read_interaction l h = Some (i, h).
Proof. intros Hl. unfold read_interaction. by rewrite Hl. Qed.

Lemma tally_of_spec ty h ris items (xs : list Interaction.t) :
  h !! ris = Some (CArray items) →
  points_to CInteraction h items xs →
  ∃ h', tally_of ty ris h = Some (tally ty xs, h') ∧ h ⊆ h'.
Proof.
  intros Hris Hp.
  destruct (array_filter_spec CInteraction read_interaction
              read_interaction_spec
              (λ i, Interaction.interaction_type i = ty) h ris items xs
              Hris Hp) as (l & kept & E & Hl & Hk).
  exists (<[l := CArray kept]> h). split; [|by apply insert_subseteq].
  unfold tally_of, mbind, JS_bind. rewrite E.
  unfold array_length, mbind, JS_bind, read_array.
  rewrite lookup_insert_eq. unfold tally.
  by rewrite (Forall2_length _ _ _ Hk).
Qed.

Lemma interactions_of_spec h idata (I : option (list Interaction.t))
    (report : Report.t) :
  holds_array CInteraction h idata I →
  ∃ l h' items,
    interactions_of idata report h = Some (l, h')
    ∧ h ⊆ h'
    ∧ h' !! l = Some (CArray items)
    ∧ points_to CInteraction h' items (reportInteractions I report).
Proof.
  destruct idata as [li|], I as [xs|]; cbn [holds_array]; try done.
  - intros (items & Hli & Hp).
    destruct (array_filter_spec CInteraction read_interaction
                read_interaction_spec
                (λ i, Interaction.report_id i = Report.id report)
                h li items xs Hli Hp) as (l & kept & E & Hl & Hk).
    exists l, (<[l := CArray kept]> h), kept.
    assert (h ⊆ <[l := CArray kept]> h) by by apply insert_subseteq.
    split_and!; try done.
    + apply lookup_insert_eq.
    + by eapply points_to_mono.
  - intros _. destruct (alloc_spec (CArray []) h) as (l & El & Hl).
    exists l, (<[l := CArray []]> h), []. split_and!; try done.
    + by apply insert_subseteq.
    + apply lookup_insert_eq.
    + constructor.
Qed.

Context (namer : Report.t → JS (option string)).
Context (fname : Report.t → option string) (hb : gmap positive Cell).
Context (Hnamer : ∀ h report, hb ⊆ h → namer report h = Some (fname report, h)).
Context (idata : option positive) (I : option (list Interaction.t)).

(** The callback of [map] makes three arrays and the row, and touches
    nothing else. *)
Lemma row_of_spec h lreport (report : Report.t) :
  hb ⊆ h →
  h !! lreport = Some (CReport report) →
  holds_array CInteraction h idata I →
  ∃ l h',
    row_of namer idata lreport h = Some (l, h')
    ∧ h ⊆ h'
    ∧ h' !! l
      = Some (CRow (ReportWithVotes.spread report
                      (tally upvote (reportInteractions I report))
                      (tally downvote (reportInteractions I report))
                      (fname report))).
Proof.
  intros Hb Hrep HI.
  destruct (interactions_of_spec h idata I report HI)
    as (lris & h1 & items & E1 & S1 & Hris & Hp).
  destruct (tally_of_spec upvote h1 lris items _ Hris Hp)
    as (h2 & E2 & S2).
  assert (Hris2 : h2 !! lris = Some (CArray items))
    by by eapply lookup_weaken.
  assert (Hp2 := points_to_mono _ _ _ _ _ S2 Hp).
  destruct (tally_of_spec downvote h2 lris items _ Hris2 Hp2)
    as (h3 & E3 & S3).
  assert (S13 : h ⊆ h3) by (etrans; [exact S1|]; etrans; done).
  destruct (alloc_spec
              (CRow (ReportWithVotes.spread report
                       (tally upvote (reportInteractions I report))
                       (tally downvote (reportInteractions I report))
                       (fname report))) h3) as (l & El & Hl).
  eexists l, _. split_and!.
  - unfold row_of, mbind, JS_bind, read_report. rewrite Hrep, E1, E2, E3.
    rewrite Hnamer by (etrans; done). exact El.
  - etrans; [exact S13|]. by apply insert_subseteq.
  - apply lookup_insert_eq.
Qed.

Lemma mapM_row_of_spec items :
  ∀ h (R : list Report.t),
    hb ⊆ h →
    points_to CReport h items R →
    holds_array CInteraction h idata I →
    ∃ outs h',
      mapM (row_of namer idata) items h = Some (outs, h')
      ∧ h ⊆ h'
      ∧ points_to CRow h' outs
          ((λ report,
              ReportWithVotes.spread report
                (tally upvote (reportInteractions I report))
                (tally downvote (reportInteractions I report))
                (fname report)) <$> R).
Proof.
  induction items as [|l items IH]; intros h R Hb Hp HI.
  - apply Forall2_nil_inv_l in Hp as ->.
    exists [], h. split_and!; try done. constructor.
  - apply Forall2_cons_inv_l in Hp as (report & R' & Hl & Hp & ->).
    destruct (row_of_spec h l report Hb Hl HI) as (lrow & h1 & E1 & S1 & Hrow).
    destruct (IH h1 R') as (outs & h2 & E2 & S2 & Hout).
    { etrans; done. }
    { by eapply points_to_mono. }
    { by eapply holds_array_mono. }
    exists (lrow :: outs), h2. split_and!.
    + cbn [mapM]. unfold mbind at 1, JS_bind at 1. rewrite E1.
      unfold mbind at 1, JS_bind at 1. by rewrite E2.
    + etrans; done.
    + rewrite fmap_cons. constructor; [by eapply lookup_weaken|done].
Qed.

Lemma rows_of_spec h rdata (R : option (list Report.t)) :
  hb ⊆ h →
  holds_array CReport h rdata R →
  holds_array CInteraction h idata I →
  ∃ out h',
    rows_of namer rdata idata h = Some (out, h')
    ∧ h ⊆ h'
    ∧ holds_array CRow h' (Some out)
        (Some ((λ report,
                  ReportWithVotes.spread report
                    (tally upvote (reportInteractions I report))
                    (tally downvote (reportInteractions I report))
                    (fname report)) <$> or_empty R)).
Proof.
  intros Hb HR HI.
  destruct rdata as [lr|], R as [xs|]; cbn [holds_array] in HR; try done.
  - destruct HR as (items & Hlr & Hp).
    destruct (mapM_row_of_spec items h xs Hb Hp HI)
      as (outs & h1 & E & S1 & Hout).
    destruct (alloc_spec (CArray outs) h1) as (l & El & Hl).
    exists l, (<[l := CArray outs]> h1).
    assert (h1 ⊆ <[l := CArray outs]> h1) by by apply insert_subseteq.
    split_and!.
    + unfold rows_of. erewrite JS_bind_Some by reflexivity.
      unfold array_map.
      erewrite JS_bind_Some by by apply read_array_spec.
      erewrite JS_bind_Some by exact E. exact El.
    + etrans; done.
    + exists outs. split; [apply lookup_insert_eq|by eapply points_to_mono].
  - destruct (alloc_spec (CArray []) h) as (l0 & El0 & Hl0).
    destruct (alloc_spec (CArray []) (<[l0 := CArray []]> h))
      as (l & El & Hl).
    exists l, (<[l := CArray []]> (<[l0 := CArray []]> h)).
    split_and!.
    + unfold rows_of. erewrite JS_bind_Some by exact El0.
      unfold array_map.
      erewrite JS_bind_Some by (apply read_array_spec, lookup_insert_eq).
      erewrite JS_bind_Some by reflexivity. exact El.
    + etrans; by apply insert_subseteq.
    + exists []. split; [apply lookup_insert_eq|constructor].
Qed.
End StoreRows.

Section StoreProfiles.
Implicit Types (h : gmap positive Cell).

Lemma read_profile_spec h l (p : Profile.t) :
  h !! l = Some (CProfile p) → read_profile l h = Some (p, h).
Proof. intros Hl. unfold read_profile. by rewrite Hl. Qed.

(** The [forEach] writes into the [Map] and into nothing else. *)
Lemma for_each_set_spec pm items :
  ∀ (ps : list Profile.t) h entries,
    h !! pm = Some (CMap entries) →
    points_to CProfile h items ps →
    for_each items
      (λ l, profile ← read_profile l; map_set pm (Profile.id profile) l) h
    = Some (tt, <[pm := CMap (set_all entries items ps)]> h).
Proof.
  induction items as [|l items IH]; intros ps h entries Hpm Hp.
  - apply Forall2_nil_inv_l in Hp as ->. cbn.
    unfold mret, JS_ret. by rewrite insert_id.
  - apply Forall2_cons_inv_l in Hp as (p & ps' & Hl & Hp & ->).
    cbn [for_each].
    erewrite JS_bind_Some; last first.
    { erewrite JS_bind_Some by by apply read_profile_spec.
      unfold map_set. by rewrite Hpm. }
    rewrite (IH ps' _ (<[Profile.id p := l]> entries)).
    + by rewrite insert_insert_eq.
    + apply lookup_insert_eq.
    + eapply Forall2_impl; [exact Hp|]. intros l' p' Hl'. cbn beta in *.
      rewrite lookup_insert_ne; [done|]. intros ->. congruence.
Qed.

Lemma mirrors_map_set_all h items :
  ∀ (ps : list Profile.t) entries pmap,
    points_to CProfile h items ps →
    mirrors_map h entries pmap →
    mirrors_map h (set_all entries items ps)
      (foldl (λ m profile, <[Profile.id profile := profile]> m) pmap ps).
Proof.
  induction items as [|l items IH]; intros ps entries pmap Hp Hm.
  - by apply Forall2_nil_inv_l in Hp as ->.
  - apply Forall2_cons_inv_l in Hp as (p & ps' & Hl & Hp & ->).
    apply (IH ps' (<[Profile.id p := l]> entries)
             (<[Profile.id p := p]> pmap) Hp).
    intros key. destruct (decide (Profile.id p = key)) as [<-|Hne].
    + rewrite !lookup_insert_eq. by exists p.
    + rewrite !lookup_insert_ne by done. apply Hm.
Qed.

Lemma mirrors_map_mono h h' entries pmap :
  h ⊆ h' → mirrors_map h entries pmap → mirrors_map h' entries pmap.
Proof.
  intros Hsub Hm key. specialize (Hm key).
  destruct (entries !! key) as [l|]; [|done].
  destruct Hm as (p & Hl & Hp). exists p. split; [|done].
  by eapply lookup_weaken.
Qed.

(** The name read through the [Map] is the name of the pure model. *)
Lemma reporter_name_of_spec hb pm entries pmap h (report : Report.t) :
  hb !! pm = Some (CMap entries) →
  mirrors_map hb entries pmap →
  hb ⊆ h →
  (name ← reporter_name_of pm report; mret (Some name)) h
  = Some (Some (resolve_reporter_name pmap report), h).
Proof.
  intros Hpm Hm Hsub.
  unfold reporter_name_of, resolve_reporter_name.
  destruct (Report.is_anonymous report); [done|].
  assert (Hget : map_get pm (Report.user_id report) h
                 = Some (entries !! Report.user_id report, h)).
  { unfold map_get. by rewrite (lookup_weaken _ _ _ _ Hpm Hsub). }
  specialize (Hm (Report.user_id report)).
  destruct (entries !! Report.user_id report) as [l|].
  - destruct Hm as (p & Hl & Hp). rewrite Hp.
    erewrite JS_bind_Some; last first.
    { erewrite JS_bind_Some by exact Hget. cbn beta iota.
      erewrite JS_bind_Some
        by (apply read_profile_spec; by eapply lookup_weaken).
      reflexivity. }
    done.
  - rewrite Hm.
    erewrite JS_bind_Some; last first.
    { erewrite JS_bind_Some by exact Hget. reflexivity. }
    done.
Qed.

(** The profiles variant: the store it leaves has every object it found,
    as it was, and the array it returns holds the rows of the pure
    aggregate. *)
Lemma MuiStore_aggregate_spec h rdata idata pdata R I P :
  holds_array CReport h rdata R →
  holds_array CInteraction h idata I →
  holds_array CProfile h pdata P →
  ∃ out h',
    MuiStore.aggregate rdata idata pdata h = Some (out, h')
    ∧ h ⊆ h'
    ∧ holds_array CRow h' (Some out) (Some (Mui.aggregate R I P)).
Proof.
  intros HR HI HP.
  destruct (alloc_spec (CMap ∅) h) as (pm & Epm & Hfresh).
  assert (∃ entries,
             match pdata with
             | Some lp =>
                 items ← read_array lp;
                 for_each items
                   (λ l, profile ← read_profile l;
                         map_set pm (Profile.id profile) l)
             | None => mret tt
             end (<[pm := CMap ∅]> h)
             = Some (tt, <[pm := CMap entries]> h)
             ∧ mirrors_map (<[pm := CMap entries]> h) entries
                 (profilesMap P)) as (entries & Eph & Hm).
  { assert (Hsub : h ⊆ <[pm := CMap ∅]> h) by by apply insert_subseteq.
    destruct pdata as [lp|], P as [ps|]; cbn [holds_array] in HP; try done.
    - destruct HP as (items & Hlp & Hp).
      exists (set_all ∅ items ps). split.
      + erewrite JS_bind_Some
          by (apply read_array_spec; by eapply lookup_weaken).
        erewrite for_each_set_spec.
        * by rewrite insert_insert_eq.
        * apply lookup_insert_eq.
        * by eapply points_to_mono.
      + apply mirrors_map_set_all.
        * eapply points_to_mono; [|exact Hp]. by apply insert_subseteq.
        * intros key. by rewrite !lookup_empty.
    - exists ∅. split; [done|]. intros key. by rewrite !lookup_empty. }
  set (hb := <[pm := CMap entries]> h) in *.
  assert (Hb : h ⊆ hb) by by apply insert_subseteq.
  destruct (rows_of_spec
              (λ report, name ← reporter_name_of pm report; mret (Some name))
              (λ report, Some (resolve_reporter_name (profilesMap P) report))
              hb
              (λ h0 report,
                 reporter_name_of_spec hb pm entries (profilesMap P) h0
                   report (lookup_insert_eq _ _ _) Hm)
              idata I hb rdata R)
    as (out & h' & E & Hsub & Hrows); [done|by eapply holds_array_mono..|].
  exists out, h'. split_and!.
  - unfold MuiStore.aggregate.
    erewrite JS_bind_Some by exact Epm.
    erewrite JS_bind_Some by exact Eph. exact E.
  - etrans; done.
  - exact Hrows.
Qed.

(** The variant without profiles. *)
Lemma PlainStore_aggregate_spec h rdata idata R I :
  holds_array CReport h rdata R →
  holds_array CInteraction h idata I →
  ∃ out h',
    PlainStore.aggregate rdata idata h = Some (out, h')
    ∧ h ⊆ h'
    ∧ holds_array CRow h' (Some out) (Some (Plain.aggregate R I)).
Proof.
  intros HR HI.
  destruct (rows_of_spec (λ _, mret None) (λ _, None) h
              (λ h0 report _, eq_refl) idata I h rdata R)
    as (out & h' & E & Hsub & Hrows); [done..|].
  by exists out, h'.
Qed.
End StoreProfiles.

(** C9: the aggregation step is a function of what its inputs hold and has
    no effect outside its result.  Run over a store of objects, from any
    two stores in which the three fetched arrays hold the same reports,
    interactions and profiles (at whatever places, null included), it
    returns in both runs an array that holds the same rows, those of the
    aggregate of the three collections, and every object that was in the
    store before a run is in the store after it, as it was: the step only
    makes new objects (the [Map], the filtered arrays, the rows and their
    array) and writes only into the [Map] it has made.  The same holds for
    the variant without profiles. *)
Theorem C9_aggregation_pure (h1 h2 : gmap positive Cell)
    (reports1 interactions1 profiles1 : option positive)
    (reports2 interactions2 profiles2 : option positive)
    (R : option (list Report.t)) (I : option (list Interaction.t))
    (P : option (list Profile.t)) :
  holds_array CReport h1 reports1 R →
  holds_array CInteraction h1 interactions1 I →
  holds_array CProfile h1 profiles1 P →
  holds_array CReport h2 reports2 R →
  holds_array CInteraction h2 interactions2 I →
  holds_array CProfile h2 profiles2 P →
  (∃ out1 h1' out2 h2',
      MuiStore.aggregate reports1 interactions1 profiles1 h1
      = Some (out1, h1')
      ∧ MuiStore.aggregate reports2 interactions2 profiles2 h2
        = Some (out2, h2')
      ∧ untouched h1 h1'
      ∧ untouched h2 h2'
      ∧ holds_array CRow h1' (Some out1) (Some (Mui.aggregate R I P))
      ∧ holds_array CRow h2' (Some out2) (Some (Mui.aggregate R I P)))
  ∧ (∃ out1 h1' out2 h2',
        PlainStore.aggregate reports1 interactions1 h1 = Some (out1, h1')
        ∧ PlainStore.aggregate reports2 interactions2 h2 = Some (out2, h2')
        ∧ untouched h1 h1'
        ∧ untouched h2 h2'
        ∧ holds_array CRow h1' (Some out1) (Some (Plain.aggregate R I))
        ∧ holds_array CRow h2' (Some out2) (Some (Plain.aggregate R I))).
Proof.
  intros HR1 HI1 HP1 HR2 HI2 HP2. split.
  - destruct (MuiStore_aggregate_spec h1 _ _ _ R I P HR1 HI1 HP1)
      as (out1 & h1' & E1 & S1 & Hrows1).
    destruct (MuiStore_aggregate_spec h2 _ _ _ R I P HR2 HI2 HP2)
      as (out2 & h2' & E2 & S2 & Hrows2).
    exists out1, h1', out2, h2'.
    split_and!; try done; by apply untouched_subseteq.
  - destruct (PlainStore_aggregate_spec h1 _ _ R I HR1 HI1)
      as (out1 & h1' & E1 & S1 & Hrows1).
    destruct (PlainStore_aggregate_spec h2 _ _ R I HR2 HI2)
      as (out2 & h2' & E2 & S2 & Hrows2).
    exists out1, h1', out2, h2'.
    split_and!; try done; by apply untouched_subseteq.
Qed.

Lemma C9_aggregation_pure_witness :
  ∃ out1 h1' out2 h2',
    MuiStore.aggregate (Some 3%positive) (Some 7%positive) (Some 9%positive)
      sample_store_1 = Some (out1, h1')
    ∧ MuiStore.aggregate (Some 20%positive) (Some 50%positive)
        (Some 61%positive) sample_store_2 = Some (out2, h2')
    ∧ untouched sample_store_1 h1'
    ∧ untouched sample_store_2 h2'
    ∧ holds_array CRow h1' (Some out1) (Some sample_rows)
    ∧ holds_array CRow h2' (Some out2) (Some sample_rows).
Proof.
  refine (proj1 (C9_aggregation_pure sample_store_1 sample_store_2
                   (Some 3%positive) (Some 7%positive) (Some 9%positive)
                   (Some 20%positive) (Some 50%positive) (Some 61%positive)
                   (Some [report_a; report_b]) (Some votes_a)
                   (Some [profile_u1]) _ _ _ _ _ _)).
  - exists [1%positive; 2%positive]. split; [reflexivity|].
    repeat constructor.
  - exists [4%positive; 5%positive; 6%positive]. split; [reflexivity|].
    repeat constructor.
  - exists [8%positive]. split; [reflexivity|]. repeat constructor.
  - exists [12%positive; 11%positive]. split; [reflexivity|].
    repeat constructor.
  - exists [40%positive; 41%positive; 42%positive]. split; [reflexivity|].
    repeat constructor.
  - exists [60%positive]. split; [reflexivity|]. repeat constructor.
Defined.

Example sample_store_run :
  (match MuiStore.aggregate (Some 3%positive) (Some 7%positive)
           (Some 9%positive) sample_store_1 with
   | Some (out, h') => rows_at h' out
   | None => None
   end) = Some sample_rows
  ∧ (match PlainStore.aggregate (Some 20%positive) None sample_store_2 with
     | Some (out, h') => option_map (map votes_of) (rows_at h' out)
     | None => None
     end) = Some [("a", 0, 0); ("b", 0, 0)].
Proof. vm_compute. split; reflexivity. Qed.

Example sample_store_type_error :
  MuiStore.aggregate (Some 1%positive) None None sample_store_1 = None.
Proof. vm_compute. reflexivity. Qed.

Example sample_update_strict :
  let w' := updateReportStatus (UpdateResolved None) "a" resolved
              sample_world_strict in
  (λ row, (ReportWithVotes.id row, ReportWithVotes.status row,
           ReportWithVotes.updated_at row)) <$> reports (dash w')
  = [("a", resolved, "2024-02-01T10:00:02.000Z");
     ("b", in_progress, "2024-01-04T00:00:00.000Z")]
  ∧ requests w'
    = [UpdateReport "a" resolved "2024-02-01T10:00:00.000Z"]
  ∧ reads w' = 3.
Proof. vm_compute. repeat split. Qed.
